(** * capreolus: rerank task, CodeSearchNet benchmark and bag-of-words extractor

    A shallow embedding of
    - [capreolus/task/rerank.py] (module [Rerank]),
    - [capreolus/benchmark/codesearchnet.py] (module [CodeSearchNet]),
    - [capreolus/extractor/bagofwords.py] (module [BagOfWords]),
    - [build_stoi] of [capreolus/extractor/__init__.py] (module [BuildStoI]),
    with the properties of the specification stated and settled on it,
    and further properties of the code (X1 to X27).

    Python values are modelled as follows.  A [dict] whose iteration order
    is observed (runs, folds, the result dictionaries) is an association
    list in insertion order with the dictionary operations of module [Py];
    a [dict] that is only looked up is a [gmap].  Exceptions are values of
    [exn] in the error monad [res]; the logger is a writer of [logrecord]s.
    External collaborators (evaluator, tokenizer, collection, file system)
    are the fields of a class that stands for [self]. *)

From Stdlib Require Import ZArith Ascii String List SpecFloat.
From stdpp Require Import base tactics option list strings pretty gmap.

Local Open Scope string_scope.
Local Open Scope list_scope.

(** ** Python dictionaries, exceptions and strings *)

Module Py.

(** Exceptions raised by the embedded code. *)
Inductive exn : Type :=
  | ValueError (msg : string)
  | KeyError (key : string)
  | RuntimeError (msg : string)
  | IndexError (idx : Z)
  | Exception (msg : string).

Inductive res (A : Type) : Type :=
  | OK (a : A)
  | Raise (e : exn).
Arguments OK {A} a.
Arguments Raise {A} e.

#[global] Instance res_ret : MRet res := λ A a, OK a.
#[global] Instance res_bind : MBind res := λ A B f m,
  match m with
  | OK a => f a
  | Raise e => Raise e
  end.

(** An insertion-ordered dictionary: keys are pairwise distinct ([od_wf]). *)
Abbreviation odict K V := (list (K * V)).

Section odict.
Context {K V : Type} `{EqDecision K}.

Definition od_keys (d : odict K V) : list K := d.*1.
Definition od_values (d : odict K V) : list V := d.*2.
Definition od_wf (d : odict K V) : Prop := NoDup (od_keys d).

(** [d.get(k)] *)
Fixpoint od_get (d : odict K V) (k : K) : option V :=
  match d with
  | [] => None
  | (k', v) :: d' => if decide (k = k') then Some v else od_get d' k
  end.

(** [d[k] = v]: an existing key keeps its position, a new key goes last. *)
Fixpoint od_set (d : odict K V) (k : K) (v : V) : odict K V :=
  match d with
  | [] => [(k, v)]
  | (k', v') :: d' =>
      if decide (k = k') then (k', v) :: d' else (k', v') :: od_set d' k v
  end.

(** [d.setdefault(k, v)], for its effect on [d]. *)
Definition od_setdefault (d : odict K V) (k : K) (v : V) : odict K V :=
  match od_get d k with
  | Some _ => d
  | None => od_set d k v
  end.
End odict.

(** [s.replace(old, new)], every non-overlapping occurrence from the left.
    [skip] counts the characters of a matched occurrence still to drop. *)
Fixpoint replace_go (old new : string) (skip : nat) (s : string) : string :=
  match s with
  | EmptyString => EmptyString
  | String c s' =>
      match skip with
      | S k => replace_go old new k s'
      | O =>
          if String.prefix old s
          then new +:+ replace_go old new (String.length old - 1) s'
          else String c (replace_go old new 0 s')
      end
  end.

(** [s.replace("", new)]: [new] before every character and at the end. *)
Fixpoint intersperse_str (new s : string) : string :=
  match s with
  | EmptyString => new
  | String c s' => new +:+ String c (intersperse_str new s')
  end.

Definition str_replace (s old new : string) : string :=
  match old with
  | EmptyString => intersperse_str new s
  | _ => replace_go old new 0 s
  end.

(** [s[n:]] *)
Fixpoint str_drop (n : nat) (s : string) : string :=
  match n, s with
  | O, _ => s
  | S n', String _ s' => str_drop n' s'
  | S _, EmptyString => EmptyString
  end.

End Py.

Import Py.

(** ** The rerank task *)

Module Rerank.

(** [benchmark.folds[name]]: [{"train_qids": .., "predict": {"dev": .., "test": ..}}] *)
Record Fold : Type := {
  train_qids : list string;
  predict_dev : list string;
  predict_test : list string
}.

(** The task's [config]: [config_fold] is [config["fold"]], and so on. *)
Record Config : Type := {
  config_fold : string;
  config_optimize : string;
  config_metrics : list string;
  config_threshold : Z;
  config_testthreshold : Z
}.

(** A run: query id to (document id to score), both in insertion order. *)
Abbreviation Run score := (odict string (odict string score)).

Section runs.
Context {score : Type}.

(** A run is a dictionary of dictionaries: no key twice. *)
Definition run_wf (r : Run score) : Prop :=
  od_wf r ∧ Forall (λ qd, od_wf qd.2) r.

(** [run[qid][docid] = score] on a [defaultdict(dict)]: reading [run[qid]]
    inserts an empty mapping under a new [qid] first. *)
Definition dd_set (run : Run score) (qid docid : string) (s : score) : Run score :=
  match od_get run qid with
  | Some docs => od_set run qid (od_set docs docid s)
  | None => od_set run qid [(docid, s)]
  end.

(** The inner loop of rerank.py lines 77-80 (and 113-116, 157-160):
    [for idx, (docid, score) in enumerate(docs.items())], left by [break]
    as soon as [idx >= threshold]. *)
Fixpoint take_docs (k : Z) (qid : string) (docs : odict string score)
    (idx : Z) (acc : Run score) : Run score :=
  match docs with
  | [] => acc
  | (docid, s) :: rest =>
      if bool_decide (k ≤ idx)%Z then acc
      else take_docs k qid rest (idx + 1) (dd_set acc qid docid s)
  end.

(** [self.benchmark.folds[fold]] *)
Definition get_fold (folds : odict string Fold) (name : string) : res Fold :=
  match od_get folds name with
  | Some f => OK f
  | None => Raise (KeyError name)
  end.

(** The outer loop, lines 75-80: [split] selects ["predict"]["dev"] or
    ["predict"]["test"] and [k] is the matching threshold.  The fold is
    looked up in each iteration, as in the source. *)
Fixpoint sub_run (folds : odict string Fold) (name : string)
    (split : Fold → list string) (k : Z) (run acc : Run score) : res (Run score) :=
  match run with
  | [] => OK acc
  | (qid, docs) :: rest =>
      f ← get_fold folds name;
      if bool_decide (qid ∈ split f)
      then sub_run folds name split k rest (take_docs k qid docs 0 acc)
      else sub_run folds name split k rest acc
  end.

(** [dev_run] and [test_run] of [rerank_run]. *)
Definition dev_run (cfg : Config) (folds : odict string Fold)
    (best_search_run : Run score) : res (Run score) :=
  sub_run folds (config_fold cfg) predict_dev (config_threshold cfg) best_search_run [].

Definition test_run (cfg : Config) (folds : odict string Fold)
    (best_search_run : Run score) : res (Run score) :=
  sub_run folds (config_fold cfg) predict_test (config_testthreshold cfg) best_search_run [].

(** [train_run], line 71: a dict comprehension over the run. *)
Fixpoint train_run_from (folds : odict string Fold) (name : string)
    (run : Run score) : res (Run score) :=
  match run with
  | [] => OK []
  | (qid, docs) :: rest =>
      f ← get_fold folds name;
      r ← train_run_from folds name rest;
      mret (if bool_decide (qid ∈ train_qids f) then (qid, docs) :: r else r)
  end.

(** The sub-run in the words of the specification: filter to the query
    ids [Q] and keep at most the first [k] entries of each query. *)
Definition truncate (run : Run score) (Q : list string) (k : Z) : Run score :=
  (λ qd, (qd.1, take (Z.to_nat k) qd.2)) <$> filter (λ qd, qd.1 ∈ Q) run.

(** What the loops build: as [truncate], without the queries that keep
    no document. *)
Definition kept (run : Run score) (Q : list string) (k : Z) : Run score :=
  filter (λ qd, qd.2 ≠ []) (truncate run Q k).

(** [run[qid][docid]], where both keys are present. *)
Definition score_of (run : Run score) (qid docid : string) : option score :=
  docs ← od_get run qid; od_get docs docid.

(** [reranker_runs[fold]] and [searcher_runs[fold]]: the ["dev"] and
    ["test"] runs of a fold, always stored together. *)
Record Preds : Type := { dev : Run score; test : Run score }.

(** [all_preds[qid][docid] = score] on a plain dictionary. *)
Definition set_item2 (run : Run score) (qid docid : string) (s : score) : res (Run score) :=
  match od_get run qid with
  | Some docs => OK (od_set run qid (od_set docs docid s))
  | None => Raise (KeyError qid)
  end.

(** Lines 223-224 *)
Fixpoint merge_docs (qid : string) (docscores : odict string score) (all_preds : Run score)
    : res (Run score) :=
  match docscores with
  | [] => OK all_preds
  | (docid, s) :: rest =>
      all_preds ← set_item2 all_preds qid docid s;
      merge_docs qid rest all_preds
  end.

(** Lines 221-224 *)
Fixpoint merge_run (run all_preds : Run score) : res (Run score) :=
  match run with
  | [] => OK all_preds
  | (qid, docscores) :: rest =>
      all_preds ← merge_docs qid docscores (od_setdefault all_preds qid []);
      merge_run rest all_preds
  end.

(** Lines 219-224: the pooled run of all folds' test predictions. *)
Fixpoint merge_preds (preds : list Preds) (all_preds : Run score) : res (Run score) :=
  match preds with
  | [] => OK all_preds
  | p :: rest =>
      all_preds ← merge_run (test p) all_preds;
      merge_preds rest all_preds
  end.

(** The score of a (query, document) pair in the last of [preds] whose test
    predictions hold the pair. *)
Definition last_score (preds : list Preds) (qid docid : string) : option score :=
  foldl (λ o p, from_option Some o (score_of (test p) qid docid)) None preds.
End runs.

(** The logger: [evaluate] is a writer of log records over [res]. *)
Inductive loglevel : Type := DEBUG | INFO | ERROR.

Definition logrecord : Type := loglevel * string.

Definition logged (A : Type) : Type := list logrecord * res A.

#[global] Instance logged_ret : MRet logged := λ A a, ([], OK a).
#[global] Instance logged_bind : MBind logged := λ A B f m,
  match m.2 with
  | OK a => (m.1 ++ (f a).1, (f a).2)
  | Raise e => (m.1, Raise e)
  end.

Definition log (lvl : loglevel) (msg : string) : logged unit := ([(lvl, msg)], OK tt).
Definition raise {A : Type} (e : exn) : logged A := ([], Raise e).
Definition lift {A : Type} (r : res A) : logged A := ([], r).

(** Relevance judgments: query id to (document id to grade). *)
Abbreviation Qrels := (gmap string (gmap string Z)).

(** [{qid: qrels.get(qid, {}) for qid in qids}], lines 195 and 200. *)
Definition qrels_for (qrels : Qrels) (qids : list string) : Qrels :=
  foldl (λ m qid, <[qid := default ∅ (qrels !! qid)]> m) ∅ qids.

(** [{qid: qrels[qid] for qid in qids if qid in qrels}], line 92. *)
Definition qrels_judged (qrels : Qrels) (qids : list string) : Qrels :=
  foldl (λ m qid, match qrels !! qid with Some j => <[qid := j]> m | None => m end) ∅ qids.

(** What [self] gives the task: its configuration and its collaborators
    (the first-stage rank task, the file system behind [Searcher] and
    [os.path], the benchmark and the evaluator).  The collaborators are
    defined outside these files: each is a function of its arguments here,
    and an exception raised inside one is not modelled; the dictionary
    lookups of the task's own code are. *)
Class Task (score Measure Metrics Interp : Type) : Type := {
  config : Config;
  DEFAULT_METRICS : list string;
  convert_metric : string → Measure;
  (** [self.get_results_path()], as a posix string *)
  get_results_path : string;
  (** [self.rank.evaluate()["path"]] *)
  rank_paths : gmap string string;
  load_trec_run : string → Run score;
  path_exists : string → bool;
  benchmark_folds : odict string Fold;
  benchmark_qrels : Qrels;
  (** [self.benchmark.evaluate(run, qrels, metrics)]; [qrels] may be omitted *)
  benchmark_evaluate : Run score → option Qrels → list Measure → Metrics;
  format_metrics_string : Metrics → string;
  interpolated_eval :
    odict string (@Preds score) → odict string (@Preds score) → Measure → list Measure → Interp;
  (** [interpolated_results["score"]] *)
  interp_score : Interp → Metrics;
  (** the records [log_metrics_verbose] emits *)
  log_metrics_verbose : Metrics → list logrecord
}.

(** A value of the dictionary [evaluate] returns. *)
Inductive value (Metrics Interp : Type) : Type :=
  | VNone
  | VMetrics (m : Metrics)
  | VInterp (i : Interp).
Arguments VNone {Metrics Interp}.
Arguments VMetrics {Metrics Interp} m.
Arguments VInterp {Metrics Interp} i.

Section evaluate.
Context {score Measure Metrics Interp : Type} {T : Task score Measure Metrics Interp}.

(** Lines 242-244: the first-stage run of every fold, under both splits. *)
Fixpoint load_searcher_runs (names : list string) (acc : odict string (@Preds score))
    : res (odict string (@Preds score)) :=
  match names with
  | [] => OK acc
  | name :: rest =>
      match rank_paths !! name with
      | None => Raise (KeyError name)
      | Some path =>
          let run := load_trec_run path in
          load_searcher_runs rest (od_set acc name {| dev := run; test := run |})
      end
  end.

(** Lines 250-257: the predictions of the folds whose test file exists.
    The path of another fold is that of the configured fold with
    ["fold-" + config["fold"]] replaced by ["fold-" + fold]. *)
Fixpoint load_reranker_runs (names : list string) (acc : odict string (@Preds score))
    : odict string (@Preds score) :=
  match names with
  | [] => acc
  | name :: rest =>
      let test_output_path := get_results_path +:+ "/pred/test/best" in
      let dev_output_path := get_results_path +:+ "/pred/dev/best" in
      let test_path := str_replace test_output_path ("fold-" +:+ config_fold config) ("fold-" +:+ name) in
      if path_exists test_path then
        let dev_path := str_replace dev_output_path ("fold-" +:+ config_fold config) ("fold-" +:+ name) in
        load_reranker_runs rest
          (od_set acc name {| dev := load_trec_run dev_path; test := load_trec_run test_path |})
      else load_reranker_runs rest acc
  end.

(** Lines 239-259 *)
Definition find_crossvalidated_results : res (odict string (@Preds score) * odict string (@Preds score)) :=
  searcher_runs ← load_searcher_runs (od_keys benchmark_folds) [];
  mret (searcher_runs, load_reranker_runs (od_keys benchmark_folds) []).

(** Lines 185-186: the measures to report. *)
Definition report_metrics : list Measure :=
  let metrics :=
    if bool_decide (config_metrics config ≠ ["default"])
    then config_metrics config else DEFAULT_METRICS in
  convert_metric <$> metrics.

Definition missing_predictions : string :=
  "could not find predictions; run the train command first".

(** Lines 181-237 *)
Definition evaluate : logged (odict string (value Metrics Interp)) :=
  let fold := config_fold config in
  let train_output_path := get_results_path in
  log DEBUG ("results path: " +:+ train_output_path);;
  let metrics := report_metrics in
  let optimize := convert_metric (config_optimize config) in
  '(searcher_runs, reranker_runs) ← lift find_crossvalidated_results;
  match od_get reranker_runs fold with
  | None =>
      log ERROR missing_predictions;;
      raise (ValueError missing_predictions)
  | Some preds =>
      f ← lift (get_fold benchmark_folds fold);
      let dev_qrels := qrels_for benchmark_qrels (predict_dev f) in
      let fold_dev_metrics := benchmark_evaluate (dev preds) (Some dev_qrels) metrics in
      let pretty_fold_dev_metrics := format_metrics_string fold_dev_metrics in
      log INFO ("rerank: fold=" +:+ fold +:+ " dev metrics: " +:+ pretty_fold_dev_metrics);;
      let test_qrels := qrels_for benchmark_qrels (predict_test f) in
      let fold_test_metrics := benchmark_evaluate (test preds) (Some test_qrels) metrics in
      let pretty_fold_test_metrics := format_metrics_string fold_test_metrics in
      log INFO ("rerank: fold=" +:+ fold +:+ " test metrics: " +:+ pretty_fold_test_metrics);;
      if bool_decide (length reranker_runs ≠ length benchmark_folds) then
        log INFO ("rerank: skipping cross-validated metrics because results exist for only "
                  +:+ pretty (length reranker_runs) +:+ "/"
                  +:+ pretty (length benchmark_folds) +:+ " folds");;
        mret [("fold_test_metrics", VMetrics fold_test_metrics);
              ("fold_dev_metrics", VMetrics fold_dev_metrics);
              ("cv_metrics", VNone);
              ("interpolated_cv_metrics", VNone)]
      else
        log INFO ("rerank: average cross-validated metrics when choosing iteration based on '"
                  +:+ config_optimize config +:+ "':");;
        all_preds ← lift (merge_preds (od_values reranker_runs) []);
        let cv_metrics := benchmark_evaluate all_preds None metrics in
        let interpolated_results :=
          interpolated_eval searcher_runs reranker_runs optimize metrics in
        (log_metrics_verbose cv_metrics, OK tt);;
        (log_metrics_verbose (interp_score interpolated_results), OK tt);;
        mret [("fold_test_metrics", VMetrics fold_test_metrics);
              ("fold_dev_metrics", VMetrics fold_dev_metrics);
              ("cv_metrics", VMetrics cv_metrics);
              ("interpolated_results", VInterp interpolated_results)]
  end.
End evaluate.

Section fold_files.
Context {score Measure Metrics Interp : Type} {T : Task score Measure Metrics Interp}.

(** Lines 252 and 256: the prediction files of fold [name]. *)
Definition fold_test_path (name : string) : string :=
  str_replace (get_results_path +:+ "/pred/test/best")
    ("fold-" +:+ config_fold config) ("fold-" +:+ name).

Definition fold_dev_path (name : string) : string :=
  str_replace (get_results_path +:+ "/pred/dev/best")
    ("fold-" +:+ config_fold config) ("fold-" +:+ name).

(** Lines 254 and 257: the entry stored for a fold whose test file exists. *)
Definition fold_preds (name : string) : @Preds score :=
  {| dev := load_trec_run (fold_dev_path name); test := load_trec_run (fold_test_path name) |}.

(** Lines 243-244: the entry of [searcher_runs] read from [path]; its two
    values are the same run. *)
Definition searcher_preds (path : string) : @Preds score :=
  {| dev := load_trec_run path; test := load_trec_run path |}.
End fold_files.

(** What [bircheval] needs besides: the evaluator called with the default
    metrics and no judgments, [benchmark.evaluate(run, metrics=DEFAULT_METRICS)],
    and the text of its result under [%s]. *)
Class Birch (score Metrics : Type) : Type := {
  evaluate_default_metrics : Run score → Metrics;
  metrics_str : Metrics → string
}.

Section birch.
Context {score Measure Metrics Interp : Type} {T : Task score Measure Metrics Interp}.
Context {B : Birch score Metrics}.

(** Lines 268-272: [reranker_runs.setdefault(fold, {})["test"] = ...] for
    the folds whose test file exists; a fold's entry is a dictionary with
    the one key ["test"]. *)
Fixpoint load_birch_runs (names : list string) (acc : odict string (odict string (Run score)))
    : odict string (odict string (Run score)) :=
  match names with
  | [] => acc
  | name :: rest =>
      let test_output_path := get_results_path +:+ "/pred/test/best" in
      let test_path := str_replace test_output_path ("fold-" +:+ config_fold config) ("fold-" +:+ name) in
      if path_exists test_path
      then load_birch_runs rest (dd_set acc name "test" (load_trec_run test_path))
      else load_birch_runs rest acc
  end.

(** Lines 261-274; [searcher_runs] stays empty. *)
Definition find_birch_crossvalidated_results
    : odict string (@Preds score) * odict string (odict string (Run score)) :=
  ([], load_birch_runs (od_keys benchmark_folds) []).

(** [d[k]] on a plain dictionary *)
Definition get_item {V : Type} (d : odict string V) (k : string) : res V :=
  match od_get d k with
  | Some v => OK v
  | None => Raise (KeyError k)
  end.

(** Lines 173-179 *)
Definition bircheval : logged unit :=
  let fold := config_fold config in
  let '(searcher_runs, reranker_runs) := find_birch_crossvalidated_results in
  preds ← lift (get_item reranker_runs fold);
  run ← lift (get_item preds "test");
  let fold_test_metrics := evaluate_default_metrics run in
  log INFO ("rerank: fold=" +:+ fold +:+ " test metrics: " +:+ metrics_str fold_test_metrics).
End birch.

(** *** Example inputs *)

Definition ex_fold_s1 : Fold :=
  {| train_qids := ["q1"]; predict_dev := ["q2"]; predict_test := ["q3"] |}.

Definition ex_fold_s2 : Fold :=
  {| train_qids := ["q2"]; predict_dev := ["q1"]; predict_test := ["q3"] |}.

Definition ex_config (k k' : Z) : Config :=
  {| config_fold := "s1"; config_optimize := "AP"; config_metrics := ["default"];
     config_threshold := k; config_testthreshold := k' |}.

(** A first-stage run with two documents for q2 and three for q3. *)
Definition ex_run : Run Z :=
  [("q2", [("d1", 9%Z); ("d2", 1%Z)]);
   ("q3", [("d1", 5%Z); ("d3", 4%Z); ("d2", 2%Z)])].

(** The prediction files of fold s1, and those of folds s1 and s2: both
    folds predict document d1 for their shared test query q3. *)
Definition ex_files_s1 : odict string (Run Z) :=
  [("out/fold-s1/pred/test/best", [("q3", [("d1", 7%Z); ("d2", 3%Z)])]);
   ("out/fold-s1/pred/dev/best", [("q2", [("d1", 4%Z)])])].

Definition ex_files_s2 : odict string (Run Z) :=
  [("out/fold-s2/pred/test/best", [("q3", [("d1", 5%Z)])]);
   ("out/fold-s2/pred/dev/best", [("q1", [("d2", 6%Z)])])].

(** What [find_crossvalidated_results] loads from these files: no
    first-stage run is stored, so every searcher run is empty. *)
Definition ex_searcher_runs : odict string (@Preds Z) :=
  [("s1", {| dev := []; test := [] |}); ("s2", {| dev := []; test := [] |})].

Definition ex_preds_s1 : @Preds Z :=
  {| dev := [("q2", [("d1", 4%Z)])]; test := [("q3", [("d1", 7%Z); ("d2", 3%Z)])] |}.

Definition ex_preds_s2 : @Preds Z :=
  {| dev := [("q1", [("d2", 6%Z)])]; test := [("q3", [("d1", 5%Z)])] |}.

(** A task over two folds whose file system holds [files]; its evaluator
    returns the run and the judgments it was called with. *)
Definition ex_task (files : odict string (Run Z))
    : Task Z string (Run Z * option Qrels) unit :=
  {| config := ex_config 100 1000;
     DEFAULT_METRICS := ["map"];
     convert_metric := id;
     get_results_path := "out/fold-s1";
     rank_paths := {[ "s1" := "runs/s1"; "s2" := "runs/s2" ]};
     load_trec_run := λ path, default [] (od_get files path);
     path_exists := λ path, bool_decide (is_Some (od_get files path));
     benchmark_folds := [("s1", ex_fold_s1); ("s2", ex_fold_s2)];
     benchmark_qrels := {[ "q2" := {[ "d1" := 1%Z ]} ]};
     benchmark_evaluate := λ run qrels _, (run, qrels);
     format_metrics_string := λ _, "-";
     interpolated_eval := λ _ _ _ _, tt;
     interp_score := λ _, ([], None);
     log_metrics_verbose := λ _, [] |}.

End Rerank.

(** ** The CodeSearchNet corpus benchmark *)

Module CodeSearchNet.

(** [" ".join(words)] *)
Definition str_join (sep : string) (words : list string) : string :=
  String.concat sep words.

(** A line of a [*.jsonl.gz] file, for the keys the benchmark reads. *)
Record Json : Type := {
  json_url : string;
  code_tokens : list string;
  docstring_tokens : list string
}.

(** The dictionary [generate_parsed_doc_from_gz] yields. *)
Record Doc : Type := {
  url : string;
  code_raw : string;
  code_final : string;
  docstring_raw : string;
  docstring_final : string
}.

(** The collection and the helpers of [capreolus.utils] the benchmark
    calls, each a function of the arguments that vary (the language and the
    other options of [process_text] are fixed by the configuration). *)
Class Collection : Type := {
  (** [config["removekeywords"]] *)
  removekeywords : bool;
  (** [process_text(sent, lang, remove_keywords, ..)]: its ["raw"] and ["final"] texts *)
  process_text : string → bool → string * string;
  get_docid : string → string → string;
  topic_to_trectxt : string → string → string;
  (** [s.split()] *)
  str_split : string → list string
}.

(** What the loop of [download_if_missing] carries: [self._query_map], the
    lines written to the qrels and topic files, and the warnings logged. *)
Record State : Type := {
  query_map : gmap string string;
  qrel_file : list string;
  topic_file : list string;
  warnings : list string
}.

(** The files written at the end, with the query map. *)
Record Output : Type := {
  out_query_map : gmap string string;
  out_qrels : list string;
  out_topics : list string;
  out_folds : odict string Rerank.Fold
}.

Section download.
Context {C : Collection}.

(** Lines 66-85, for one line of a file. *)
Definition parse_doc (data : Json) : Doc :=
  let codes := process_text (str_join " " (code_tokens data)) removekeywords in
  let docstrings := process_text (str_join " " (docstring_tokens data)) false in
  {| url := json_url data;
     code_raw := codes.1;
     code_final := codes.2;
     docstring_raw := docstrings.1;
     docstring_final := docstrings.2 |}.

(** [generate_parsed_doc_from_gz], on the lines of the sorted files of a
    directory. *)
Definition generate_parsed_doc_from_gz (lines : list Json) : list Doc :=
  parse_doc <$> lines.

Definition chunk_warning : string :=
  "chunk query to first 1000 words otherwise TooManyClause would be triggered at lucene at search stage, ".

(** Lines 106-120: the body of the inner loop. [qids] is [qids[set_name]]. *)
Definition process_doc (acc : State * list string) (data : Doc) : State * list string :=
  let '(st, qids) := acc in
  let n_words_in_docstring := length (str_split (docstring_final data)) in
  let chunk := bool_decide (1024 ≤ n_words_in_docstring)%nat in
  let warnings := if chunk then warnings st ++ [chunk_warning] else warnings st in
  let docstring_final :=
    if chunk then str_join " " (take 1020 (str_split (docstring_final data)))
    else docstring_final data in
  let docid := get_docid (url data) (code_raw data) in
  let qid := default (pretty (size (query_map st))) (query_map st !! code_raw data) in
  let qrel_file := qrel_file st ++ [qid +:+ " Q0 " +:+ docid +:+ " 1" +:+ String "010" ""] in
  match query_map st !! docstring_raw data with
  | None =>
      ({| query_map := <[docstring_raw data := qid]> (query_map st);
          qrel_file := qrel_file;
          topic_file := topic_file st ++ [topic_to_trectxt qid docstring_final];
          warnings := warnings |},
       qids ++ [qid])
  | Some _ =>
      ({| query_map := query_map st;
          qrel_file := qrel_file;
          topic_file := topic_file st;
          warnings := warnings |},
       qids)
  end.

(** Lines 105-120: the inner loop over the documents of one set. *)
Definition process_set (st : State) (lines : list Json) : State * list string :=
  foldl process_doc (st, []) (generate_parsed_doc_from_gz lines).

(** [download_if_missing] when a file is missing (line 89 returns early
    otherwise): [corpus] gives the lines under each of the directories
    ["train"], ["valid"] and ["test"]. *)
Definition download_if_missing (corpus : string → list Json) : Output :=
  let st := {| query_map := ∅; qrel_file := []; topic_file := []; warnings := [] |} in
  let '(st, train) := process_set st (corpus "train") in
  let '(st, valid) := process_set st (corpus "valid") in
  let '(st, test) := process_set st (corpus "test") in
  {| out_query_map := query_map st;
     out_qrels := qrel_file st;
     out_topics := topic_file st;
     out_folds :=
       [("s1", {| Rerank.train_qids := train;
                  Rerank.predict_dev := valid;
                  Rerank.predict_test := test |})] |}.
End download.

(** What [get_qid] returns: a query id of the map, or the integer [-1]. *)
Inductive qid_or_int : Type :=
  | QidStr (qid : string)
  | QidInt (z : Z).

(** Lines 40-41: [self.query_map.get(query, -1)], on the query map that
    [download_if_missing] has set. *)
Definition get_qid (qmap : gmap string string) (query : string) : qid_or_int :=
  match qmap !! query with
  | Some qid => QidStr qid
  | None => QidInt (-1)
  end.

(** [CodeSearchNetChallenge]: [line.strip()] and [topic_to_trectxt] called
    with the integer line number as query id. *)
Class Challenge : Type := {
  strip : string → string;
  topic_to_trectxt_int : nat → string → string
}.

Section challenge.
Context {Ch : Challenge}.

(** Lines 171-174: the body of the loop over [enumerate(query_file)]. *)
Definition challenge_line (acc : gmap nat string * list string) (il : nat * string)
    : gmap nat string * list string :=
  let '(qid_map, topic_file) := acc in
  let '(qid, line) := il in
  if bool_decide (qid ≠ 0%nat)
  then (<[qid := line]> qid_map, topic_file ++ [topic_to_trectxt_int qid (strip line)])
  else acc.

(** Lines 168-176 of [CodeSearchNetChallenge.download_if_missing], when a
    file is missing: [qid_map] and the lines written to the topic file. *)
Definition challenge_download (query_file : list string) : gmap nat string * list string :=
  foldl challenge_line (∅, []) (imap pair query_file).
End challenge.

(** *** Vocabulary of the properties *)

(** A word: a string without whitespace. *)
Fixpoint word (s : string) : bool :=
  match s with
  | EmptyString => true
  | String c s' => negb (Ascii.is_space c) && word s'
  end.

(** A qrels line as the loop writes it, for the query id [pretty n]. *)
Definition qrels_line (line : string) : Prop :=
  ∃ (n : nat) docid, line = pretty n +:+ " Q0 " +:+ docid +:+ " 1" +:+ String "010" "".

(** Query ids are decimal numbers, and so are the ids of the lines written. *)
Definition numbered (st : State) : Prop :=
  (∀ k v, query_map st !! k = Some v → ∃ n : nat, v = pretty n) ∧
  Forall qrels_line (qrel_file st).

(** While no code text is a key of the query map, the ids handed out so
    far ([prev] in earlier sets, [acc.2] in this one) are distinct numbers
    below the size of the map. *)
Definition fresh_ids (K : list string) (prev : list string) (acc : State * list string) : Prop :=
  (∀ k, is_Some (query_map acc.1 !! k) → k ∈ K) ∧
  (∀ q, q ∈ prev ++ acc.2 → ∃ n : nat, q = pretty n ∧ (n < size (query_map acc.1))%nat) ∧
  NoDup (prev ++ acc.2).

Section documents.
Context {C : Collection}.

(** The documents of the three sets, in the order they are read. *)
Definition all_docs (corpus : string → list Json) : list Doc :=
  generate_parsed_doc_from_gz (corpus "train")
  ++ generate_parsed_doc_from_gz (corpus "valid")
  ++ generate_parsed_doc_from_gz (corpus "test").
End documents.

(** *** Example inputs *)

(** A collection whose text processing keeps the joined tokens; words are
    split at ASCII whitespace. *)
Definition ex_collection : Collection :=
  {| removekeywords := false;
     process_text := λ sent _, (sent, sent);
     get_docid := λ url _, url;
     topic_to_trectxt := λ qid text, qid +:+ ":" +:+ text;
     str_split := String.words |}.

(** The code of the test document is the text of the train docstring. *)
Definition ex_corpus (set_name : string) : list Json :=
  if decide (set_name = "train") then
    [{| json_url := "u1"; code_tokens := ["return"; "x"]; docstring_tokens := ["identity"] |}]
  else if decide (set_name = "test") then
    [{| json_url := "u2"; code_tokens := ["identity"]; docstring_tokens := ["same"; "value"] |}]
  else [].

(** A corpus in which no code text is a docstring; the two train documents
    have the same docstring. *)
Definition ex_corpus_plain (set_name : string) : list Json :=
  if decide (set_name = "train") then
    [{| json_url := "u1"; code_tokens := ["return"; "x"]; docstring_tokens := ["identity"] |};
     {| json_url := "u2"; code_tokens := ["x"]; docstring_tokens := ["identity"] |}]
  else if decide (set_name = "test") then
    [{| json_url := "u3"; code_tokens := ["x"; "+"; "1"]; docstring_tokens := ["successor"] |}]
  else [].

End CodeSearchNet.

(** ** The bag-of-words extractor *)

Module BagOfWords.

Definition pad : nat := 0.
Definition pad_tok : string := "<pad>".

(** *** float32 on integers

    The vectors are numpy [float32] arrays that only ever hold integers.
    A float32 has a 24-bit significand: every integer up to [2^24] is a
    float32, and a larger one is rounded to the nearest float32, ties to
    the even significand.  Components are kept as the integers they are,
    with that rounding written out. *)

(** [x + 1] stored back into a float32 array, for an integer
    [0 <= x <= 2^24]: [2^24 + 1] is a tie between [2^24] and [2^24 + 2] and
    rounds to [2^24], the one with the even significand. *)
Definition f32_succ (x : Z) : Z :=
  if bool_decide (x < 2 ^ 24)%Z then (x + 1)%Z else x.

(** The float32 stored for a count [0 <= n <= 2^53] (a Python integer
    that large is still exact on its way through a double): the nearest
    float32, ties to even. *)
Definition f32_of_int (n : Z) : Z :=
  let d := (Z.log2 n - 23)%Z in
  if bool_decide (d ≤ 0)%Z then n
  else
    let q := Z.shiftr n d in
    let r := (n - Z.shiftl q d)%Z in
    let half := Z.shiftl 1 (d - 1) in
    let up := bool_decide (half < r)%Z || (bool_decide (r = half) && Z.odd q) in
    Z.shiftl (if up then q + 1 else q)%Z d.

(** The same two operations in the IEEE 754 binary32 format of the
    Standard Library, to compare with. *)
Definition binary32 (n : Z) : spec_float := binary_normalize 24 128 n 0 false.

Definition binary32_value (x : spec_float) : option Z :=
  match x with
  | S754_zero _ => Some 0%Z
  | S754_finite s m e => Some (Z.shiftl (if s then Z.neg m else Z.pos m) e)
  | _ => None
  end.

(** [config()] *)
Record Cfg : Type := {
  datamode : string;
  maxqlen : Z;
  maxdoclen : Z;
  usecache : bool
}.

(** The extractor after [create]: its vocabulary and token tables.  [F] is
    the type of an idf weight as stored in a float32 array.  [idf] is a
    [defaultdict] with default 0, read as a total function: a read of a
    missing token also stores the default under it, which no result of
    [id2vec] depends on. *)
Class Extractor (F : Type) : Type := {
  cfg : Cfg;
  (** [self["tokenizer"].tokenize] *)
  tokenize : string → list string;
  stoi : gmap string nat;
  qid2toks : gmap string (list string);
  docid2toks : gmap string (list string);
  idf : string → F;
  (** the float32 zero of [np.zeros] *)
  idf_zero : F
}.

(** A value of the dictionary [id2vec] returns. *)
Inductive value (F : Type) : Type :=
  | VQid (qid : option string)
  | VDocid (docid : string)
  | VBag (v : list Z)
  | VIdf (v : list F).
Arguments VQid {F} qid.
Arguments VDocid {F} docid.
Arguments VBag {F} v.
Arguments VIdf {F} v.

(** [v[i] = x] on a numpy array *)
Definition array_set {A : Type} (v : list A) (i : nat) (x : A) : res (list A) :=
  if bool_decide (i < length v)%nat then OK (<[i := x]> v)
  else Raise (IndexError (Z.of_nat i)).

(** [v[i] += 1] on a float32 array *)
Definition array_incr (v : list Z) (i : nat) : res (list Z) :=
  match v !! i with
  | Some x => OK (<[i := f32_succ x]> v)
  | None => Raise (IndexError (Z.of_nat i))
  end.

(** [Counter(toks)]: counts by element, in order of first occurrence. *)
Definition Counter (toks : list nat) : odict nat Z :=
  foldl (λ c t, od_set c t (default 0 (od_get c t) + 1)%Z) [] toks.

(** [("#%s#" % tok)[i : i + 3] for tok in toks_list for i in range(len(tok))] *)
Definition get_trigrams_for_toks (toks_list : list string) : list string :=
  tok ← toks_list;
  (λ i, substring i 3 ("#" +:+ tok +:+ "#")) <$> seq 0 (String.length tok).

Section extractor.
Context {F : Type} {E : Extractor F}.

(** [[self.stoi.get(tok, 0) for tok in toks]] *)
Definition _tok2vec (toks : list string) : list nat :=
  (λ tok, default 0%nat (stoi !! tok)) <$> toks.

(** Lines 158-159 *)
Fixpoint incr_all (bog_txt : list Z) (term_vec : list nat) : res (list Z) :=
  match term_vec with
  | [] => OK bog_txt
  | term :: rest => bog_txt ← array_incr bog_txt term; incr_all bog_txt rest
  end.

(** Lines 164-165 *)
Fixpoint set_counts (bog_txt : list Z) (tok_counts : odict nat Z) : res (list Z) :=
  match tok_counts with
  | [] => OK bog_txt
  | (tok, count) :: rest =>
      bog_txt ← array_set bog_txt tok (f32_of_int count); set_counts bog_txt rest
  end.

(** Lines 152-169; [maxlen] is not read. *)
Definition transform_txt (term_list : list string) (maxlen : Z) : res (list Z) :=
  let term_vec := _tok2vec term_list in
  let nvocab := size stoi in
  let bog_txt := replicate nvocab 0%Z in
  if decide (datamode cfg = "unigram") then incr_all bog_txt term_vec
  else if decide (datamode cfg = "trigram") then
    let trigrams := get_trigrams_for_toks term_list in
    let toks := (λ trigram, default 0%nat (stoi !! trigram)) <$> trigrams in
    let tok_counts := Counter toks in
    set_counts bog_txt tok_counts
  else Raise (Exception "Unknown datamode").

(** Lines 131-133 *)
Fixpoint set_idf (query_idf_vector : list F) (query_toks : list string) : res (list F) :=
  match query_toks with
  | [] => OK query_idf_vector
  | tok :: rest =>
      query_idf_vector ← array_set query_idf_vector (default 0%nat (stoi !! tok)) (idf tok);
      set_idf query_idf_vector rest
  end.

(** Lines 114-150 *)
Definition id2vec (posdoc_id : string) (negdoc_id qid query : option string)
    : res (option (odict string (value F))) :=
  query_toks ←
    match query with
    | Some text =>
        match qid with
        | None => OK (tokenize text)
        | Some _ =>
            Raise (RuntimeError "received both a qid and query, but only one can be passed")
        end
    | None =>
        match qid ≫= (qid2toks !!.) with
        | Some toks => OK toks
        | None => Raise (KeyError (default "None" qid))
        end
    end;
  match docid2toks !! posdoc_id with
  | None | Some [] => OK None
  | Some posdoc_toks =>
      transformed_query ← transform_txt query_toks (maxqlen cfg);
      query_idf_vector ← set_idf (replicate (size stoi) idf_zero) query_toks;
      posdoc ← transform_txt posdoc_toks (maxdoclen cfg);
      let transformed :=
        [("qid", VQid qid); ("posdocid", VDocid posdoc_id);
         ("query", VBag transformed_query); ("posdoc", VBag posdoc);
         ("query_idf", VIdf query_idf_vector)] in
      match negdoc_id with
      | None => OK (Some transformed)
      | Some negdoc_id =>
          match docid2toks !! negdoc_id with
          | None | Some [] => OK None
          | Some negdoc_toks =>
              let transformed := od_set transformed "negdocid" (VDocid negdoc_id) in
              negdoc ← transform_txt negdoc_toks (maxdoclen cfg);
              OK (Some (od_set transformed "negdoc" (VBag negdoc)))
          end
      end
  end.
End extractor.

(** [{i: s for s, i in self.stoi.items()}], lines 69 and 78: the
    vocabulary is read in its insertion order here, and a later term
    replaces an earlier one with the same index. *)
Definition itos_of (stoi : odict string nat) : odict nat string :=
  foldl (λ itos si, od_set itos si.2 si.1) [] stoi.

(** *** Vocabulary of the properties *)

(** The sum of the components of a vector. *)
Definition vsum (v : list Z) : Z := foldr Z.add 0%Z v.

(** How often index [i] occurs in [l]. *)
Definition occurrences (i : nat) (l : list nat) : nat := length (filter (λ j, j = i) l).

Section vocabulary.
Context {F : Type} {E : Extractor F}.

(** The vocabulary [create] and [_extend_stoi] build: the pad token has
    index 0 and every index is below the size of the vocabulary. *)
Definition stoi_wf : Prop :=
  stoi !! pad_tok = Some pad ∧ ∀ tok i, stoi !! tok = Some i → (i < size stoi)%nat.

(** The document has tokens recorded in [docid2toks]. *)
Definition has_toks (docid : string) : bool :=
  match docid2toks !! docid with
  | Some (_ :: _) => true
  | _ => false
  end.

(** The query of a call resolves: a text without a query id, or a query
    id recorded in [qid2toks] without a text. *)
Definition query_resolves (qid query : option string) : Prop :=
  match query, qid with
  | Some _, None => True
  | None, Some k => is_Some (qid2toks !! k)
  | _, _ => False
  end.
(** The query tokens of a call whose query resolves (lines 116-123). *)
Definition query_toks_of (qid query : option string) : option (list string) :=
  match query, qid with
  | Some text, None => Some (tokenize text)
  | None, Some k => qid2toks !! k
  | _, _ => None
  end.

(** The vocabulary index a token is counted under (line 37). *)
Definition index_of (tok : string) : nat := default 0%nat (stoi !! tok).
End vocabulary.

(** *** Example inputs *)

(** A vocabulary of three terms over the pad token. *)
Definition ex_extractor (mode : string) : Extractor Z :=
  {| cfg := {| datamode := mode; maxqlen := 4; maxdoclen := 800; usecache := false |};
     tokenize := String.words;
     stoi := {[ "<pad>" := 0%nat; "dog" := 1%nat; "cat" := 2%nat; "#do" := 3%nat ]};
     qid2toks := {[ "q1" := ["dog"; "bird"] ]};
     docid2toks := {[ "d1" := ["cat"; "dog"; "cat"]; "d2" := ["emu"]; "d3" := [] ]};
     idf := λ tok, if decide (tok = "dog") then 3%Z else 0%Z;
     idf_zero := 0%Z |}.

End BagOfWords.

(** ** The vocabulary builder of the extractors *)

Module BuildStoI.

(** What the [assert]s of [build_stoi] guard: the value, or [AssertionError]. *)
Inductive asserted (A : Type) : Type :=
  | Passed (a : A)
  | AssertionError.
Arguments Passed {A} a.
Arguments AssertionError {A}.

(** The attributes of [self] that [build_stoi] reads, [None] being
    Python's: the index for its [getidf], the vocabulary and the idf table,
    both dictionaries in insertion order.  [F] is the type of an idf
    weight. *)
Record Self (F : Type) : Type := {
  index : option (string → F);
  stoi : option (odict string nat);
  idf : option (odict string F)
}.
Arguments index {F} s.
Arguments stoi {F} s.
Arguments idf {F} s.

(** Lines 54-59: the body of the inner loop. *)
Definition build_stoi_tok {F : Type} (getidf : string → F) (calculate_idf : bool)
    (acc : odict string nat * odict string F) (tok : string)
    : odict string nat * odict string F :=
  let '(stoi, idf) := acc in
  match od_get stoi tok with
  | Some _ => acc
  | None =>
      (od_set stoi tok (length stoi),
       if calculate_idf then od_set idf tok (getidf tok) else idf)
  end.

(** Lines 47-59; [keepstops] is not read. *)
Definition build_stoi {F : Type} (self : Self F) (toks_list : list (list string))
    (keepstops calculate_idf : bool) : asserted (Self F) :=
  match index self, stoi self, idf self with
  | Some getidf, Some stoi, Some idf =>
      let acc := foldl (foldl (build_stoi_tok getidf calculate_idf)) (stoi, idf) toks_list in
      Passed {| index := Some getidf; stoi := Some acc.1; idf := Some acc.2 |}
  | _, _, _ => AssertionError
  end.

(** A vocabulary numbered in insertion order: no term twice, and the
    indices are 0, 1, 2, ... as the terms were added. *)
Definition numbered (stoi : odict string nat) : Prop :=
  od_wf stoi ∧ od_values stoi = seq 0 (length stoi).

(** *** Example inputs *)

(** The vocabulary [create] starts from, with an index that gives every
    term the idf 2. *)
Definition ex_self : Self Z :=
  {| index := Some (λ _, 2%Z); stoi := Some [("<pad>", 0%nat)]; idf := Some [] |}.

End BuildStoI.

(** * Properties *)

(** ** Ordered dictionaries *)

Module PyFacts.

Section odict_facts.
Context {K V : Type} `{EqDecision K}.
Implicit Types (d : odict K V) (k : K) (v : V).

Lemma od_get_notin d k : k ∉ od_keys d → od_get d k = None.
Proof.
  induction d as [|[k' v'] d IH]; simpl; [done|].
  rewrite not_elem_of_cons. intros [Hne Hd].
  destruct (decide (k = k')); [done|]. by apply IH.
Qed.

Lemma od_get_is_Some d k : is_Some (od_get d k) ↔ k ∈ od_keys d.
Proof.
  induction d as [|[k' v'] d IH]; simpl.
  - rewrite elem_of_nil. split; [by intros [? ?]|done].
  - rewrite elem_of_cons. destruct (decide (k = k')) as [->|Hne].
    + split; eauto.
    + rewrite IH. split; [by right|]. by intros [?|?].
Qed.

Lemma od_get_elem_of d k v : od_get d k = Some v → (k, v) ∈ d.
Proof.
  induction d as [|[k' v'] d IH]; simpl; [done|].
  destruct (decide (k = k')) as [->|Hne].
  - intros [= ->]. left.
  - intros Hg. right. by apply IH.
Qed.

Lemma od_get_Some d k v : od_wf d → od_get d k = Some v ↔ (k, v) ∈ d.
Proof.
  intros Hwf. split; [apply od_get_elem_of|].
  induction d as [|[k' v'] d IH]; simpl.
  - by rewrite elem_of_nil.
  - unfold od_wf in Hwf. simpl in Hwf. apply NoDup_cons in Hwf as [Hk' Hwf].
    rewrite elem_of_cons. intros [[= -> ->]|Hin].
    + by rewrite decide_True.
    + destruct (decide (k = k')) as [->|Hne]; [|by apply IH].
      exfalso. apply Hk'. apply list_elem_of_fmap. by exists (k', v).
Qed.

Lemma od_set_notin d k v : k ∉ od_keys d → od_set d k v = d ++ [(k, v)].
Proof.
  induction d as [|[k' v'] d IH]; simpl; [done|].
  rewrite not_elem_of_cons. intros [Hne Hd].
  rewrite decide_False by done. by rewrite IH.
Qed.

Lemma od_get_snoc d k v : k ∉ od_keys d → od_get (d ++ [(k, v)]) k = Some v.
Proof.
  induction d as [|[k' v'] d IH]; simpl.
  - intros _. by rewrite decide_True.
  - rewrite not_elem_of_cons. intros [Hne Hd].
    rewrite decide_False by done. by apply IH.
Qed.

Lemma od_set_snoc d k v0 v : k ∉ od_keys d → od_set (d ++ [(k, v0)]) k v = d ++ [(k, v)].
Proof.
  induction d as [|[k' v'] d IH]; simpl.
  - intros _. by rewrite decide_True.
  - rewrite not_elem_of_cons. intros [Hne Hd].
    rewrite decide_False by done. by rewrite IH.
Qed.

Lemma od_keys_app d d' : od_keys (d ++ d') = od_keys d ++ od_keys d'.
Proof. unfold od_keys. apply fmap_app. Qed.

Lemma od_get_set d k v k' :
  od_get (od_set d k v) k' = if decide (k' = k) then Some v else od_get d k'.
Proof.
  induction d as [|[k0 v0] d IH]; simpl.
  - by destruct (decide (k' = k)).
  - destruct (decide (k = k0)) as [->|Hne]; simpl.
    + by destruct (decide (k' = k0)).
    + destruct (decide (k' = k0)) as [->|Hne'].
      * by rewrite decide_False by done.
      * apply IH.
Qed.

Lemma od_keys_set d k v k' : k' ∈ od_keys (od_set d k v) ↔ k' = k ∨ k' ∈ od_keys d.
Proof.
  rewrite <-!od_get_is_Some, od_get_set.
  destruct (decide (k' = k)) as [->|Hne].
  - split; eauto.
  - split; [by right|]. by intros [?|?].
Qed.

Lemma od_get_setdefault d k v k' :
  od_get (od_setdefault d k v) k' =
  match od_get d k' with
  | Some x => Some x
  | None => if decide (k' = k) then Some v else None
  end.
Proof.
  unfold od_setdefault. destruct (od_get d k) as [x|] eqn:Hk.
  - destruct (od_get d k') as [x'|] eqn:Hk'; [done|].
    destruct (decide (k' = k)) as [->|Hne]; [congruence|done].
  - rewrite od_get_set.
    destruct (decide (k' = k)) as [->|Hne]; [by rewrite Hk|].
    by destruct (od_get d k').
Qed.
End odict_facts.

Lemma prefix_app_drop (p s : string) :
  String.prefix p s = true → p +:+ str_drop (String.length p) s = s.
Proof.
  revert s. induction p as [|a p IH]; intros s; [done|].
  destruct s as [|b s]; [done|]. simpl.
  destruct (ascii_dec a b) as [->|]; [|done].
  intros Hp. change (String b (p +:+ str_drop (String.length p) s) = String b s).
  by rewrite IH.
Qed.

Lemma replace_go_same (old : string) : old ≠ "" →
  ∀ s k, replace_go old old k s = str_drop k s.
Proof.
  intros Hold. destruct old as [|a old]; [done|]. clear Hold.
  intros s. induction s as [|c s IH]; intros k.
  - by destruct k.
  - destruct k as [|k]; [|apply IH]. cbn [replace_go].
    destruct (String.prefix (String a old) (String c s)) eqn:Hp.
    + rewrite IH. apply prefix_app_drop in Hp.
      change (String.length (String a old)) with (S (String.length old)) in *.
      rewrite Nat.sub_succ, Nat.sub_0_r. exact Hp.
    + by rewrite IH.
Qed.

Lemma str_replace_same (s old : string) : old ≠ "" → str_replace s old old = s.
Proof.
  intros Hold. unfold str_replace. destruct old as [|a old]; [done|].
  by rewrite replace_go_same.
Qed.

End PyFacts.

(** ** The rerank task *)

Module RerankFacts.
Import Rerank PyFacts.

(** Closes a decidable proposition about closed terms by evaluation. *)
Ltac decide_closed := apply (bool_decide_unpack _); vm_compute; exact I.

Section run_facts.
Context {score : Type}.
Implicit Types (run acc : Run score) (docs pre : odict string score).

Lemma take_docs_acc k qid docs : ∀ idx acc pre,
  qid ∉ od_keys acc → od_wf (pre ++ docs) →
  take_docs k qid docs idx (acc ++ [(qid, pre)])
  = acc ++ [(qid, pre ++ take (Z.to_nat (k - idx)) docs)].
Proof.
  induction docs as [|[docid s] rest IH]; intros idx acc pre Hq Hwf; simpl.
  - by rewrite take_nil, app_nil_r.
  - case_bool_decide as Hk.
    + replace (Z.to_nat (k - idx)) with 0%nat by lia. by rewrite take_0, app_nil_r.
    + unfold dd_set. rewrite od_get_snoc, od_set_snoc by done.
      assert (docid ∉ od_keys pre) as Hd.
      { unfold od_wf in Hwf. rewrite od_keys_app in Hwf.
        apply NoDup_app in Hwf as (_ & Hdis & _). intros Hin.
        apply (Hdis _ Hin). simpl. left. }
      rewrite od_set_notin by done.
      rewrite IH; [|done|by rewrite <-app_assoc].
      replace (Z.to_nat (k - idx)) with (S (Z.to_nat (k - (idx + 1)))) by lia.
      simpl. by rewrite <-app_assoc.
Qed.

Lemma take_docs_fresh k qid docs acc :
  qid ∉ od_keys acc → od_wf docs →
  take_docs k qid docs 0 acc
  = acc ++ filter (λ qd, qd.2 ≠ []) [(qid, take (Z.to_nat k) docs)].
Proof.
  intros Hq Hwf. destruct docs as [|[docid s] rest]; simpl.
  - rewrite take_nil. rewrite filter_cons_False by (simpl; naive_solver).
    by rewrite filter_nil, app_nil_r.
  - case_bool_decide as Hk.
    + replace (Z.to_nat k) with 0%nat by lia. simpl.
      rewrite filter_cons_False by (simpl; naive_solver).
      by rewrite filter_nil, app_nil_r.
    + unfold dd_set. rewrite od_get_notin, od_set_notin by done.
      rewrite (take_docs_acc k qid rest (0 + 1) acc [(docid, s)]) by done.
      replace (Z.to_nat k) with (S (Z.to_nat (k - (0 + 1)))) by lia. simpl.
      by rewrite filter_cons_True by done.
Qed.

Lemma kept_cons qid docs run Q k :
  kept ((qid, docs) :: run) Q k
  = (if bool_decide (qid ∈ Q)
     then filter (λ qd : string * odict string score, qd.2 ≠ []) [(qid, take (Z.to_nat k) docs)]
     else [])
    ++ kept run Q k.
Proof.
  unfold kept, truncate.
  rewrite (filter_cons (λ qd : string * odict string score, qd.1 ∈ Q)). simpl.
  case_bool_decide as HQ.
  - rewrite decide_True by done. rewrite fmap_cons.
    rewrite 2!(filter_cons (λ qd : string * odict string score, qd.2 ≠ [])), filter_nil.
    simpl. repeat case_decide; first [reflexivity | contradiction].
  - by rewrite decide_False by done.
Qed.

Lemma kept_keys_sublist run Q k : sublist (od_keys (kept run Q k)) (od_keys run).
Proof.
  induction run as [|[qid docs] run IH]; [done|].
  rewrite kept_cons. case_bool_decide.
  - destruct (decide (take (Z.to_nat k) docs = [])) as [He|He].
    + rewrite filter_cons_False by (simpl; naive_solver). simpl.
      by apply sublist_cons.
    + rewrite filter_cons_True by done. simpl. by apply sublist_skip.
  - simpl. by apply sublist_cons.
Qed.

Lemma sub_run_kept folds name f (split : Fold → list string) k run : ∀ acc,
  od_get folds name = Some f →
  od_wf (acc ++ run) → Forall (λ qd, od_wf qd.2) run →
  sub_run folds name split k run acc = OK (acc ++ kept run (split f) k).
Proof.
  intros acc Hf. revert acc.
  induction run as [|[qid docs] run IH]; intros acc Hwf Hin; simpl.
  - by rewrite app_nil_r.
  - unfold get_fold. rewrite Hf. simpl.
    apply Forall_cons in Hin as [Hdocs Hin]. simpl in Hdocs.
    rewrite kept_cons.
    assert (qid ∉ od_keys acc) as Hq.
    { unfold od_wf in Hwf. rewrite od_keys_app in Hwf.
      apply NoDup_app in Hwf as (_ & Hdis & _). intros Hi.
      apply (Hdis _ Hi). simpl. left. }
    unfold mbind, res_bind.
    case_bool_decide as HQ.
    + rewrite take_docs_fresh by done. rewrite IH; [by rewrite <-app_assoc| |done].
      rewrite <-app_assoc.
      unfold od_wf in *. rewrite !od_keys_app in *.
      destruct (decide (take (Z.to_nat k) docs = [])) as [He|He].
      * rewrite filter_cons_False by (simpl; naive_solver). simpl.
        simpl in Hwf. apply NoDup_app in Hwf as (Ha & Hdis & Hr).
        apply NoDup_cons in Hr as [? ?].
        apply NoDup_app. split_and!; [done| |done].
        intros x Hx Hx'. apply (Hdis x Hx). by right.
      * rewrite filter_cons_True by done. done.
    + simpl. apply IH; [|done].
      unfold od_wf in *. rewrite !od_keys_app in *. simpl in Hwf.
      apply NoDup_app in Hwf as (Ha & Hdis & Hr).
      apply NoDup_cons in Hr as [? ?].
      apply NoDup_app. split_and!; [done| |done].
      intros x Hx Hx'. apply (Hdis x Hx). by right.
Qed.

Lemma kept_idemp run Q k : kept (kept run Q k) Q k = kept run Q k.
Proof.
  induction run as [|[qid docs] run IH]; [done|].
  rewrite kept_cons. case_bool_decide as HQ; [|done].
  rewrite (filter_cons (λ qd : string * odict string score, qd.2 ≠ [])), filter_nil.
  cbn [snd]. case_decide as He; [|done].
  cbn [app]. rewrite kept_cons, bool_decide_true by done.
  rewrite take_idemp.
  rewrite (filter_cons (λ qd : string * odict string score, qd.2 ≠ [])), filter_nil.
  cbn [snd]. rewrite decide_True by done. by rewrite IH.
Qed.

Lemma kept_wf run Q k : run_wf run → run_wf (kept run Q k).
Proof.
  intros [Hk Hd]. split.
  - unfold od_wf. eapply sublist_NoDup; [done|apply kept_keys_sublist].
  - unfold kept, truncate. apply Forall_forall. intros [qid docs'] Hin.
    apply list_elem_of_filter in Hin as [_ Hin].
    apply list_elem_of_fmap in Hin as ([qid' docs] & [= -> ->] & Hin).
    apply list_elem_of_filter in Hin as [_ Hin].
    rewrite Forall_forall in Hd. specialize (Hd _ Hin). simpl in *.
    unfold od_wf, od_keys in *. rewrite fmap_take.
    eapply sublist_NoDup; [done|apply sublist_take].
Qed.

Lemma kept_lookup run Q k qid docs' :
  od_wf run →
  od_get (kept run Q k) qid = Some docs' ↔
  qid ∈ Q ∧ docs' ≠ [] ∧
  ∃ docs, od_get run qid = Some docs ∧ docs' = take (Z.to_nat k) docs.
Proof.
  intros Hwf.
  assert (od_wf (kept run Q k)) as Hwf'.
  { unfold od_wf. eapply sublist_NoDup; [done|apply kept_keys_sublist]. }
  rewrite od_get_Some by done. unfold kept, truncate.
  rewrite list_elem_of_filter, list_elem_of_fmap. simpl. split.
  - intros (Hne & [qid' docs] & [= -> ->] & Hin).
    apply list_elem_of_filter in Hin as [HQ Hin]. simpl in *.
    split_and!; [done..|]. exists docs. by rewrite od_get_Some.
  - intros (HQ & Hne & docs & Hg & ->). split; [done|].
    exists (qid, docs). split; [done|].
    apply list_elem_of_filter. split; [done|]. by apply od_get_Some.
Qed.

Lemma sub_run_closed_form folds name f (split : Fold → list string) k run :
  od_get folds name = Some f → run_wf run →
  sub_run folds name split k run [] = OK (kept run (split f) k).
Proof.
  intros Hf [Hk Hd]. by rewrite (sub_run_kept folds name f split k run []).
Qed.

(** C3 (amended).  For a first-stage run that is a dictionary of
    dictionaries and a fold of the benchmark, [rerank_run] builds a dev
    sub-run [D] and a test sub-run [T].  The queries of [D] are, in the
    order of the run, exactly the queries of the run that are in the fold's
    dev predict set and keep at least one document: a query with no
    document, and every query when [threshold <= 0], is left out.  Each
    query of [D] maps to the first [threshold] documents of that query (all
    of them when there are fewer), in the run's order and with unchanged
    scores.  [T] is the same with the test predict set and [testthreshold]. *)
Theorem sub_runs_contents (cfg : Config) (folds : odict string Fold) (f : Fold) (R : Run score) :
  run_wf R →
  od_get folds (config_fold cfg) = Some f →
  ∃ D T : Run score,
    dev_run cfg folds R = OK D ∧ test_run cfg folds R = OK T ∧
    sublist (od_keys D) (od_keys R) ∧ sublist (od_keys T) (od_keys R) ∧
    (∀ qid docs', od_get D qid = Some docs' ↔
       qid ∈ predict_dev f ∧ docs' ≠ [] ∧
       ∃ docs, od_get R qid = Some docs ∧
               docs' = take (Z.to_nat (config_threshold cfg)) docs) ∧
    (∀ qid docs', od_get T qid = Some docs' ↔
       qid ∈ predict_test f ∧ docs' ≠ [] ∧
       ∃ docs, od_get R qid = Some docs ∧
               docs' = take (Z.to_nat (config_testthreshold cfg)) docs).
Proof.
  intros HR Hf.
  exists (kept R (predict_dev f) (config_threshold cfg)),
         (kept R (predict_test f) (config_testthreshold cfg)).
  unfold dev_run, test_run.
  rewrite !(sub_run_closed_form folds (config_fold cfg) f) by done.
  destruct HR as [HR _].
  split_and!; auto using kept_keys_sublist.
  - intros qid docs'. by apply kept_lookup.
  - intros qid docs'. by apply kept_lookup.
Qed.

(** C4.  Truncation is idempotent: the sub-run construction (filter to the
    fold's query ids, cap at the threshold) applied to its own output
    returns that output, for the dev and for the test sub-run, for every
    run, every set of query ids and every bound. *)
Theorem sub_run_idempotent (cfg : Config) (folds : odict string Fold) (f : Fold) (R : Run score) :
  run_wf R →
  od_get folds (config_fold cfg) = Some f →
  ∃ D T : Run score,
    dev_run cfg folds R = OK D ∧ dev_run cfg folds D = OK D ∧
    test_run cfg folds R = OK T ∧ test_run cfg folds T = OK T.
Proof.
  intros HR Hf.
  exists (kept R (predict_dev f) (config_threshold cfg)),
         (kept R (predict_test f) (config_testthreshold cfg)).
  unfold dev_run, test_run.
  rewrite !(sub_run_closed_form folds (config_fold cfg) f) by auto using kept_wf.
  by rewrite !kept_idemp.
Qed.

Lemma score_of_cons qid docs run q d :
  score_of ((qid, docs) :: run) q d
  = if decide (q = qid) then od_get docs d else score_of run q d.
Proof. unfold score_of. simpl. by destruct (decide (q = qid)). Qed.

Lemma score_of_setdefault acc qid q d :
  score_of (od_setdefault acc qid []) q d = score_of acc q d.
Proof.
  unfold score_of. rewrite od_get_setdefault.
  destruct (od_get acc q); [done|]. by destruct (decide (q = qid)).
Qed.

Lemma merge_docs_spec qid docs : ∀ acc,
  qid ∈ od_keys acc → od_wf docs →
  ∃ acc', merge_docs qid docs acc = OK acc' ∧
    (∀ q, q ∈ od_keys acc' ↔ q ∈ od_keys acc) ∧
    (∀ q d, score_of acc' q d =
       if decide (q = qid)
       then from_option Some (score_of acc q d) (od_get docs d)
       else score_of acc q d).
Proof.
  induction docs as [|[docid s] rest IH]; intros acc Hq Hwf; simpl.
  - exists acc. split_and!; [done..|]. intros q d. by case_decide.
  - apply od_get_is_Some in Hq as Hq'. destruct Hq' as [ds Hds].
    unfold set_item2. rewrite Hds. simpl.
    unfold od_wf in Hwf. simpl in Hwf. apply NoDup_cons in Hwf as [Hdocid Hwf].
    destruct (IH (od_set acc qid (od_set ds docid s))) as (acc' & Hm & Hkeys & Hsc).
    { apply od_keys_set. by left. }
    { done. }
    exists acc'. split; [done|]. split.
    + intros q. rewrite Hkeys, od_keys_set. split; [|by right].
      by intros [->|?].
    + intros q d. rewrite Hsc. unfold score_of. rewrite od_get_set.
      destruct (decide (q = qid)) as [->|Hne]; [|done].
      rewrite Hds. simpl. rewrite od_get_set.
      destruct (decide (d = docid)) as [->|Hd]; [|done].
      by rewrite od_get_notin.
Qed.

Lemma merge_run_spec run : ∀ acc,
  run_wf run →
  ∃ acc', merge_run run acc = OK acc' ∧
    (∀ q, q ∈ od_keys acc' ↔ q ∈ od_keys acc ∨ q ∈ od_keys run) ∧
    (∀ q d, score_of acc' q d = from_option Some (score_of acc q d) (score_of run q d)).
Proof.
  induction run as [|[qid docs] rest IH]; intros acc [Hk Hd]; simpl.
  - exists acc. split_and!; [done| |done].
    intros q. rewrite elem_of_nil. split; [by left|]. by intros [?|[]].
  - unfold od_wf in Hk. simpl in Hk. apply NoDup_cons in Hk as [Hqid Hk].
    apply Forall_cons in Hd as [Hdocs Hd]. simpl in Hdocs.
    destruct (merge_docs_spec qid docs (od_setdefault acc qid []))
      as (acc1 & Hm1 & Hk1 & Hs1); [|done|].
    { apply od_get_is_Some. rewrite od_get_setdefault.
      destruct (od_get acc qid); [done|]. by rewrite decide_True. }
    rewrite Hm1. simpl.
    destruct (IH acc1) as (acc' & Hm & Hk' & Hs); [done|].
    exists acc'. split; [done|]. split.
    + intros q. rewrite Hk', Hk1. simpl. rewrite elem_of_cons.
      rewrite <-(od_get_is_Some (od_setdefault acc qid [])), od_get_setdefault.
      rewrite <-(od_get_is_Some acc).
      destruct (od_get acc q) as [x|] eqn:Hacc.
      * split; [by left|]. intros _. left. eauto.
      * destruct (decide (q = qid)) as [->|Hne].
        -- split; [by right; left|]. intros _. left. eauto.
        -- split.
           ++ intros [[? [=]]|?]. by right; right.
           ++ intros [[? [=]]|[?|?]]; [done|by right].
    + intros q d. rewrite Hs, Hs1, score_of_setdefault, score_of_cons.
      destruct (decide (q = qid)) as [->|Hne]; [|done].
      assert (score_of rest qid d = None) as ->; [|done].
      unfold score_of. by rewrite od_get_notin.
Qed.

Lemma merge_preds_spec (preds : list (@Preds score)) : ∀ acc,
  Forall (λ p, run_wf (test p)) preds →
  ∃ acc', merge_preds preds acc = OK acc' ∧
    (∀ q, q ∈ od_keys acc' ↔ q ∈ od_keys acc ∨ ∃ p, p ∈ preds ∧ q ∈ od_keys (test p)) ∧
    (∀ q d, score_of acc' q d =
       foldl (λ o p, from_option Some o (score_of (test p) q d)) (score_of acc q d) preds).
Proof.
  induction preds as [|p rest IH]; intros acc Hwf; simpl.
  - exists acc. split_and!; [done| |done].
    intros q. split; [by left|]. intros [?|(p & Hp & _)]; [done|].
    by apply elem_of_nil in Hp.
  - apply Forall_cons in Hwf as [Hp Hwf].
    destruct (merge_run_spec (test p) acc Hp) as (acc1 & Hm1 & Hk1 & Hs1).
    rewrite Hm1. simpl.
    destruct (IH acc1 Hwf) as (acc' & Hm & Hk & Hs).
    exists acc'. split; [done|]. split.
    + intros q. rewrite Hk, Hk1. split.
      * intros [[?|?]|(p' & Hp' & Hq)]; [by left|right..].
        -- exists p. split; [left|done].
        -- exists p'. split; [by right|done].
      * intros [?|(p' & Hp' & Hq)]; [by left; left|].
        apply elem_of_cons in Hp' as [->|Hp']; [by left; right|].
        right. by exists p'.
    + intros q d. by rewrite Hs, Hs1.
Qed.
Lemma merge_docs_snoc qid docs : ∀ acc pre,
  qid ∉ od_keys acc → od_wf (pre ++ docs) →
  merge_docs qid docs (acc ++ [(qid, pre)]) = OK (acc ++ [(qid, pre ++ docs)]).
Proof.
  induction docs as [|[docid s] rest IH]; intros acc pre Hq Hwf; simpl.
  - by rewrite app_nil_r.
  - unfold set_item2. rewrite od_get_snoc, od_set_snoc by done. cbn.
    assert (docid ∉ od_keys pre) as Hd.
    { unfold od_wf in Hwf. rewrite od_keys_app in Hwf.
      apply NoDup_app in Hwf as (_ & Hdis & _). intros Hin.
      apply (Hdis _ Hin). simpl. left. }
    rewrite od_set_notin by done.
    rewrite IH; [|done|by rewrite <-app_assoc].
    by rewrite <-app_assoc.
Qed.

Lemma merge_run_app run : ∀ acc,
  od_wf (acc ++ run) → Forall (λ qd, od_wf qd.2) run →
  merge_run run acc = OK (acc ++ run).
Proof.
  induction run as [|[qid docs] rest IH]; intros acc Hwf Hin; simpl.
  - by rewrite app_nil_r.
  - apply Forall_cons in Hin as [Hd Hin]. cbn in Hd.
    assert (qid ∉ od_keys acc) as Hq.
    { unfold od_wf in Hwf. rewrite od_keys_app in Hwf.
      apply NoDup_app in Hwf as (_ & Hdis & _). intros Hq.
      apply (Hdis _ Hq). simpl. left. }
    unfold od_setdefault. rewrite od_get_notin, od_set_notin by done.
    rewrite (merge_docs_snoc qid docs acc []) by done. cbn.
    rewrite IH; [|by rewrite <-app_assoc|done]. by rewrite <-app_assoc.
Qed.

Lemma merge_preds_app (preds : list (@Preds score)) : ∀ acc,
  od_wf (acc ++ concat (test <$> preds)) →
  Forall (λ qd, od_wf qd.2) (concat (test <$> preds)) →
  merge_preds preds acc = OK (acc ++ concat (test <$> preds)).
Proof.
  induction preds as [|p rest IH]; intros acc Hwf Hin; simpl.
  - by rewrite app_nil_r.
  - cbn in Hwf, Hin. apply Forall_app in Hin as [Hp Hin].
    rewrite merge_run_app; [|..|done].
    + cbn. rewrite IH; [|by rewrite <-app_assoc|done]. by rewrite <-app_assoc.
    + unfold od_wf in *. rewrite !od_keys_app in Hwf. rewrite od_keys_app.
      rewrite app_assoc in Hwf. by apply NoDup_app in Hwf as (? & _ & _).
Qed.

(** X7.  Pooling folds whose test runs share no query (lines 219-224):
    when the test runs of the folds, put one after the other, form a
    dictionary of dictionaries, the merge loop never fails and the pooled
    run is that concatenation, in fold order, with every entry unchanged. *)
Theorem merge_disjoint_folds (preds : list (@Preds score)) :
  run_wf (concat (test <$> preds)) →
  merge_preds preds [] = OK (concat (test <$> preds)).
Proof.
  intros [Hwf Hin]. by rewrite merge_preds_app.
Qed.

Lemma sub_run_unknown_fold folds name (split : Fold → list string) k run acc :
  od_get folds name = None →
  sub_run folds name split k run acc
  = match run with [] => OK acc | _ :: _ => Raise (KeyError name) end.
Proof.
  intros Hn. destruct run as [|[qid docs] rest]; [done|].
  cbn. unfold get_fold. by rewrite Hn.
Qed.

(** X8.  A configured fold the benchmark does not have (lines 71-80,
    109-116): [folds[fold]] is evaluated once per query of the first-stage
    run, so the three sub-runs raise [KeyError] as soon as the run has a
    query, and are all empty for an empty run. *)
Theorem sub_runs_unknown_fold (cfg : Config) (folds : odict string Fold) (R : Run score) :
  od_get folds (config_fold cfg) = None →
  let outcome := match R with [] => OK [] | _ :: _ => Raise (KeyError (config_fold cfg)) end in
  train_run_from folds (config_fold cfg) R = outcome ∧
  dev_run cfg folds R = outcome ∧
  test_run cfg folds R = outcome.
Proof.
  intros Hn. unfold dev_run, test_run. rewrite !sub_run_unknown_fold by done.
  split; [|done]. destruct R as [|[qid docs] rest]; [done|].
  cbn. unfold get_fold. by rewrite Hn.
Qed.

(** X9.  The train sub-run (line 71) is the first-stage run filtered to
    the fold's train queries, in the run's order; unlike the dev and test
    sub-runs it is not cut at a threshold: a kept query has all its
    documents. *)
Theorem train_run_closed_form (folds : odict string Fold) name f (R : Run score) :
  od_get folds name = Some f →
  train_run_from folds name R = OK (filter (λ qd, qd.1 ∈ train_qids f) R) ∧
  (od_wf R → ∀ qid docs,
     od_get (filter (λ qd, qd.1 ∈ train_qids f) R) qid = Some docs
     ↔ qid ∈ train_qids f ∧ od_get R qid = Some docs).
Proof.
  intros Hf. split.
  - induction R as [|[qid docs] rest IH]; [done|].
    rewrite (filter_cons (λ qd : string * odict string score, qd.1 ∈ train_qids f)).
    cbn [train_run_from]. unfold get_fold. rewrite Hf.
    change (OK f ≫= ?k) with (k f). cbn beta. rewrite IH.
    change (OK ?r ≫= ?k) with (k r). cbn beta. cbn [fst].
    case_bool_decide; case_decide; done.
  - intros Hwf qid docs.
    assert (od_wf (filter (λ qd : string * odict string score, qd.1 ∈ train_qids f) R)) as Hwf'.
    { unfold od_wf, od_keys in *. eapply sublist_NoDup; [exact Hwf|].
      apply fmap_sublist, sublist_filter. }
    rewrite !od_get_Some by done. rewrite list_elem_of_filter. cbn. tauto.
Qed.

End run_facts.

Section evaluate_facts.
Context {score Measure Metrics Interp : Type} {T : Task score Measure Metrics Interp}.

Lemma load_reranker_runs_keys names : ∀ acc k,
  k ∈ od_keys (load_reranker_runs names acc) → k ∈ names ∨ k ∈ od_keys acc.
Proof.
  induction names as [|name rest IH]; intros acc k; simpl; [by right|].
  destruct (path_exists _); intros Hk; apply IH in Hk as [Hk|Hk].
  - left. by right.
  - apply od_keys_set in Hk as [->|Hk]; [left; left|by right].
  - left. by right.
  - by right.
Qed.

Lemma reranker_runs_folds sr rr k :
  find_crossvalidated_results = OK (sr, rr) →
  k ∈ od_keys rr → k ∈ od_keys benchmark_folds.
Proof.
  unfold find_crossvalidated_results. destruct (load_searcher_runs _ _); [|done].
  intros [= _ <-] Hk. apply load_reranker_runs_keys in Hk as [Hk|Hk]; [done|].
  by apply elem_of_nil in Hk.
Qed.

(** C1.  When the predictions of the configured fold are missing, that
    is, when the fold is absent from the reranker runs reloaded by
    [find_crossvalidated_results], [evaluate] logs an error and raises.  The
    exception (MissingPredictionsError in the specification, a ValueError
    in the code) carries the message that tells the caller to run the train
    command first, and no metrics are returned for the fold. *)
Theorem evaluate_missing_predictions sr rr :
  find_crossvalidated_results = OK (sr, rr) →
  od_get rr (config_fold config) = None →
  evaluate =
    ([(DEBUG, "results path: " +:+ get_results_path); (ERROR, missing_predictions)],
     Raise (ValueError missing_predictions)).
Proof.
  intros Hf Hg. unfold evaluate. rewrite Hf. cbn. rewrite Hg. reflexivity.
Qed.

Lemma load_reranker_runs_absent names : ∀ acc,
  path_exists (get_results_path +:+ "/pred/test/best") = false →
  od_get acc (config_fold config) = None →
  od_get (load_reranker_runs names acc) (config_fold config) = None.
Proof.
  induction names as [|name rest IH]; intros acc Hfile Hacc; [done|].
  cbn [load_reranker_runs].
  destruct (decide (name = config_fold config)) as [->|Hne].
  - rewrite str_replace_same by done. rewrite Hfile. by apply IH.
  - destruct (path_exists (str_replace _ _ _)); apply IH; try done.
    rewrite od_get_set. by rewrite decide_False.
Qed.

(** Without the file of the configured fold's test predictions, [evaluate]
    raises, whatever the other folds have. *)
Lemma evaluate_without_prediction_file sr rr :
  find_crossvalidated_results = OK (sr, rr) →
  path_exists (get_results_path +:+ "/pred/test/best") = false →
  evaluate.2 = Raise (ValueError missing_predictions).
Proof.
  intros Hf Hfile.
  assert (od_get rr (config_fold config) = None) as Hrr.
  { unfold find_crossvalidated_results in Hf.
    destruct (load_searcher_runs _ _); [|done]. injection Hf as _ <-.
    by apply load_reranker_runs_absent. }
  unfold evaluate. rewrite Hf. cbn. by rewrite Hrr.
Qed.

Lemma qrels_for_lookup_from (qrels : Qrels) qids : ∀ (m : Qrels) qid,
  foldl (λ m qid, <[qid := default ∅ (qrels !! qid)]> m) m qids !! qid
  = if decide (qid ∈ qids) then Some (default ∅ (qrels !! qid)) else m !! qid.
Proof.
  induction qids as [|q rest IH]; intros m qid; cbn [foldl].
  - rewrite decide_False; [done|]. apply not_elem_of_nil.
  - rewrite IH. destruct (decide (qid ∈ rest)) as [Hin|Hnin].
    + rewrite decide_True; [done|]. by right.
    + destruct (decide (qid = q)) as [->|Hne].
      * rewrite decide_True by left. by rewrite lookup_insert_eq.
      * rewrite decide_False by (by intros [?|?]%elem_of_cons).
        by rewrite lookup_insert_ne.
Qed.

Lemma qrels_for_lookup (qrels : Qrels) qids qid :
  qrels_for qrels qids !! qid
  = if decide (qid ∈ qids) then Some (default ∅ (qrels !! qid)) else None.
Proof. unfold qrels_for. by rewrite qrels_for_lookup_from, lookup_empty. Qed.

Lemma merge_docs_total qid (docs : odict string score) : ∀ acc,
  qid ∈ od_keys acc →
  ∃ acc', merge_docs qid docs acc = OK acc' ∧ ∀ q, q ∈ od_keys acc → q ∈ od_keys acc'.
Proof.
  induction docs as [|[docid s] rest IH]; intros acc Hq; simpl; [by exists acc|].
  apply od_get_is_Some in Hq as Hq'. destruct Hq' as [ds Hds].
  unfold set_item2. rewrite Hds. cbn.
  destruct (IH (od_set acc qid (od_set ds docid s))) as (acc' & Hm & Hk).
  { apply od_keys_set. by left. }
  exists acc'. split; [done|]. intros q Hin. apply Hk, od_keys_set. by right.
Qed.

Lemma merge_run_total (run : Run score) : ∀ acc, ∃ acc', merge_run run acc = OK acc'.
Proof.
  induction run as [|[qid docs] rest IH]; intros acc; simpl; [by exists acc|].
  destruct (merge_docs_total qid docs (od_setdefault acc qid [])) as (acc1 & -> & _).
  { apply od_get_is_Some. rewrite od_get_setdefault.
    destruct (od_get acc qid); [done|]. by rewrite decide_True. }
  apply IH.
Qed.

Lemma merge_preds_total (preds : list (@Preds score)) : ∀ acc,
  ∃ acc', merge_preds preds acc = OK acc'.
Proof.
  induction preds as [|p rest IH]; intros acc; simpl; [by exists acc|].
  destruct (merge_run_total (test p) acc) as (acc1 & ->). apply IH.
Qed.

Lemma od_values_set (d : odict string (@Preds score)) k v x :
  x ∈ od_values (od_set d k v) → x = v ∨ x ∈ od_values d.
Proof.
  induction d as [|[k0 v0] d IH]; simpl.
  - intros ?%list_elem_of_singleton. by left.
  - destruct (decide (k = k0)) as [->|Hne]; simpl; rewrite !elem_of_cons.
    + intros [->|?]; [by left|by right; right].
    + intros [->|Hx]; [by right; left|].
      apply IH in Hx as [->|?]; [by left|by right; right].
Qed.

Lemma load_reranker_runs_values (P : @Preds score → Prop) names : ∀ acc,
  (∀ path path', P {| dev := load_trec_run path; test := load_trec_run path' |}) →
  Forall P (od_values acc) → Forall P (od_values (load_reranker_runs names acc)).
Proof.
  intros acc HP. revert acc.
  induction names as [|name rest IH]; intros acc Hacc; simpl; [done|].
  destruct (path_exists _); apply IH; [|done].
  apply Forall_forall. intros x Hx. apply od_values_set in Hx as [->|Hx]; [apply HP|].
  rewrite Forall_forall in Hacc. by apply Hacc.
Qed.

Lemma get_fold_found sr rr preds :
  find_crossvalidated_results = OK (sr, rr) →
  od_get rr (config_fold config) = Some preds →
  ∃ f, od_get benchmark_folds (config_fold config) = Some f.
Proof.
  intros Hf Hg. apply (od_get_is_Some benchmark_folds (config_fold config)).
  apply (reranker_runs_folds sr rr); [done|]. apply od_get_is_Some. eauto.
Qed.

(** C2.  When reranker runs are found for the configured fold but for
    strictly fewer folds than the benchmark defines, [evaluate] does not
    raise: it returns the fold's dev and test metrics with [cv_metrics] and
    the interpolated metrics set to None, and its last log record reports
    the coverage as the number of folds with results, a slash, and the
    number of folds. *)
Theorem evaluate_partial_folds sr rr preds :
  find_crossvalidated_results = OK (sr, rr) →
  od_get rr (config_fold config) = Some preds →
  length rr < length benchmark_folds →
  ∃ f, od_get benchmark_folds (config_fold config) = Some f ∧
    let dev_metrics :=
      benchmark_evaluate (dev preds)
        (Some (qrels_for benchmark_qrels (predict_dev f))) report_metrics in
    let test_metrics :=
      benchmark_evaluate (test preds)
        (Some (qrels_for benchmark_qrels (predict_test f))) report_metrics in
    evaluate =
      ([(DEBUG, "results path: " +:+ get_results_path);
        (INFO, "rerank: fold=" +:+ config_fold config +:+ " dev metrics: "
               +:+ format_metrics_string dev_metrics);
        (INFO, "rerank: fold=" +:+ config_fold config +:+ " test metrics: "
               +:+ format_metrics_string test_metrics);
        (INFO, "rerank: skipping cross-validated metrics because results exist for only "
               +:+ pretty (length rr) +:+ "/" +:+ pretty (length benchmark_folds)
               +:+ " folds")],
       OK [("fold_test_metrics", VMetrics test_metrics);
           ("fold_dev_metrics", VMetrics dev_metrics);
           ("cv_metrics", VNone);
           ("interpolated_cv_metrics", VNone)]).
Proof.
  intros Hf Hg Hlen. destruct (get_fold_found sr rr preds Hf Hg) as [f Hfold].
  exists f. split; [done|]. unfold evaluate. rewrite Hf. cbn. rewrite Hg.
  unfold get_fold. rewrite Hfold. cbn.
  rewrite bool_decide_true by lia. reflexivity.
Qed.

(** C8.  Whenever reranker runs are found for the configured fold,
    [evaluate] returns, and the judgments it passes to the evaluator for
    the dev (resp. test) metrics hold an entry for every query id of the
    fold's dev (resp. test) predict set: the benchmark's judgments of the
    query when it has some, the empty mapping otherwise. *)
Theorem evaluate_qrels_cover sr rr preds :
  find_crossvalidated_results = OK (sr, rr) →
  od_get rr (config_fold config) = Some preds →
  ∃ f logs result,
    od_get benchmark_folds (config_fold config) = Some f ∧
    evaluate = (logs, OK result) ∧
    od_get result "fold_dev_metrics"
      = Some (VMetrics (benchmark_evaluate (dev preds)
                (Some (qrels_for benchmark_qrels (predict_dev f))) report_metrics)) ∧
    od_get result "fold_test_metrics"
      = Some (VMetrics (benchmark_evaluate (test preds)
                (Some (qrels_for benchmark_qrels (predict_test f))) report_metrics)) ∧
    (∀ qid, qid ∈ predict_dev f →
       qrels_for benchmark_qrels (predict_dev f) !! qid
       = Some (default ∅ (benchmark_qrels !! qid))) ∧
    (∀ qid, qid ∈ predict_test f →
       qrels_for benchmark_qrels (predict_test f) !! qid
       = Some (default ∅ (benchmark_qrels !! qid))).
Proof.
  intros Hf Hg. destruct (get_fold_found sr rr preds Hf Hg) as [f Hfold].
  exists f.
  destruct (merge_preds_total (od_values rr) []) as [all_preds Hm].
  unfold evaluate. rewrite Hf. cbn. rewrite Hg.
  unfold get_fold. rewrite Hfold. cbn.
  case_bool_decide.
  - eexists _, _. split_and!; [done|reflexivity|reflexivity|reflexivity|..];
      intros qid Hin; by rewrite qrels_for_lookup, decide_True.
  - rewrite Hm. cbn.
    eexists _, _. split_and!; [done|reflexivity|reflexivity|reflexivity|..];
      intros qid Hin; by rewrite qrels_for_lookup, decide_True.
Qed.

(** C5 (amended).  When predictions exist for all folds, [evaluate]
    computes the pooled metric on one merged run, built before any pooled
    metric is computed.  The queries of the merged run are the union of the
    queries of the folds' test predictions, and a (query, document) pair has
    the score of the last fold, in the order of the benchmark's folds, whose
    test predictions hold the pair: a pair predicted by several folds keeps
    one score only. *)
Theorem evaluate_pools_test_predictions sr rr preds :
  (∀ path, run_wf (load_trec_run path)) →
  find_crossvalidated_results = OK (sr, rr) →
  od_get rr (config_fold config) = Some preds →
  length rr = length benchmark_folds →
  ∃ all_preds logs result,
    merge_preds (od_values rr) [] = OK all_preds ∧
    evaluate = (logs, OK result) ∧
    od_get result "cv_metrics"
      = Some (VMetrics (benchmark_evaluate all_preds None report_metrics)) ∧
    (∀ qid, qid ∈ od_keys all_preds ↔ ∃ p, p ∈ od_values rr ∧ qid ∈ od_keys (test p)) ∧
    (∀ qid docid, score_of all_preds qid docid = last_score (od_values rr) qid docid).
Proof.
  intros Hwf Hf Hg Hlen. destruct (get_fold_found sr rr preds Hf Hg) as [f Hfold].
  assert (Forall (λ p, run_wf (test p)) (od_values rr)) as Hrr.
  { unfold find_crossvalidated_results in Hf.
    destruct (load_searcher_runs _ _); [|done]. injection Hf as _ <-.
    apply load_reranker_runs_values; [|done]. intros ??. apply Hwf. }
  destruct (merge_preds_spec (od_values rr) [] Hrr) as (all_preds & Hm & Hk & Hs).
  exists all_preds. unfold evaluate. rewrite Hf. cbn. rewrite Hg.
  unfold get_fold. rewrite Hfold. cbn.
  rewrite bool_decide_false by lia. rewrite Hm. cbn.
  eexists _, _. split_and!; [done|reflexivity|reflexivity|..].
  - intros qid. rewrite Hk. split; [|by right].
    intros [Hn|?]; [|done]. by apply elem_of_nil in Hn.
  - intros qid docid. by rewrite Hs.
Qed.
Lemma load_reranker_runs_lookup names : ∀ acc name,
  od_get (load_reranker_runs names acc) name
  = if bool_decide (name ∈ names) && path_exists (fold_test_path name)
    then Some (fold_preds name) else od_get acc name.
Proof.
  induction names as [|n names IH]; intros acc name; [done|].
  cbn [load_reranker_runs]. fold (fold_test_path n) (fold_dev_path n).
  destruct (path_exists (fold_test_path n)) eqn:Hn.
  - rewrite IH, od_get_set. fold (fold_preds n).
    destruct (decide (name = n)) as [->|Hne].
    + rewrite Hn. rewrite (bool_decide_eq_true_2 (n ∈ n :: names)) by left.
      cbn. by destruct (bool_decide (n ∈ names)).
    + rewrite (bool_decide_ext (name ∈ n :: names) (name ∈ names)); [done|].
      rewrite elem_of_cons. split; [intros [?|?]; [contradiction|assumption] | by right].
  - rewrite IH. destruct (decide (name = n)) as [->|Hne].
    + rewrite Hn, !andb_false_r. done.
    + rewrite (bool_decide_ext (name ∈ n :: names) (name ∈ names)); [done|].
      rewrite elem_of_cons. split; [intros [?|?]; [contradiction|assumption] | by right].
Qed.

Lemma load_reranker_runs_app names : ∀ acc,
  NoDup (od_keys acc ++ names) →
  load_reranker_runs names acc
  = acc ++ ((λ name, (name, fold_preds name)) <$> filter (λ name, path_exists (fold_test_path name) = true) names).
Proof.
  induction names as [|n names IH]; intros acc Hnd.
  - cbn. by rewrite app_nil_r.
  - cbn [load_reranker_runs]. fold (fold_test_path n) (fold_dev_path n).
    apply NoDup_app in Hnd as (Ha & Hd & Hn).
    apply NoDup_cons in Hn as [Hn Hns].
    assert (n ∉ od_keys acc) as Hna by (intros H; apply (Hd n H); left).
    rewrite filter_cons.
    destruct (path_exists (fold_test_path n)) eqn:Hex.
    + rewrite decide_True by done. fold (fold_preds n).
      rewrite od_set_notin by done. rewrite IH.
      * by rewrite <- app_assoc.
      * rewrite od_keys_app. cbn. rewrite <- app_assoc. cbn.
        apply NoDup_app. split; [done|]. split.
        -- intros x Hx Hx'. apply elem_of_cons in Hx' as [->|Hx']; [done|].
           apply (Hd x Hx). by right.
        -- by apply NoDup_cons.
    + rewrite decide_False by done. apply IH.
      apply NoDup_app. split; [done|]. split; [|done].
      intros x Hx Hx'. apply (Hd x Hx). by right.
Qed.

Lemma find_crossvalidated_results_rr sr rr :
  find_crossvalidated_results = OK (sr, rr) →
  rr = load_reranker_runs (od_keys benchmark_folds) [].
Proof.
  unfold find_crossvalidated_results. 
  destruct (load_searcher_runs _ _); cbn; [|discriminate].
  intros [= _ <-]. done.
Qed.

(** X1.  The reranker runs (lines 246-259) are the entries of the folds
    whose test prediction file exists, in the benchmark's fold order, each
    with the runs loaded from the fold's own dev and test files; so there
    are at most as many as folds, and exactly as many when every fold's test
    file exists. *)
Theorem reranker_runs_closed_form sr rr :
  od_wf benchmark_folds →
  find_crossvalidated_results = OK (sr, rr) →
  rr = (λ name, (name, fold_preds name))
         <$> filter (λ name, path_exists (fold_test_path name) = true) (od_keys benchmark_folds) ∧
  sublist (od_keys rr) (od_keys benchmark_folds) ∧
  (length rr ≤ length benchmark_folds)%nat ∧
  (length rr = length benchmark_folds ↔
   ∀ name, name ∈ od_keys benchmark_folds → path_exists (fold_test_path name) = true).
Proof.
  intros Hwf Hf. apply find_crossvalidated_results_rr in Hf.
  rewrite load_reranker_runs_app in Hf by done. cbn [app] in Hf.
  assert (od_keys rr = filter (λ name, path_exists (fold_test_path name) = true) (od_keys benchmark_folds)) as Hk.
  { subst rr. unfold od_keys at 1. rewrite <- list_fmap_compose.
    apply list_fmap_id. }
  split; [done|]. split; [rewrite Hk; apply sublist_filter|].
  assert (length rr = length (od_keys rr)) as -> by (unfold od_keys; by rewrite length_fmap).
  assert (length benchmark_folds = length (od_keys benchmark_folds)) as ->
    by (unfold od_keys; by rewrite length_fmap).
  rewrite Hk. split; [apply length_filter|].
  split.
  - intros Hlen name Hin.
    destruct (path_exists (fold_test_path name)) eqn:Hex; [done|]. exfalso.
    pose proof (length_filter_lt (λ name, path_exists (fold_test_path name) = true)
                  (od_keys benchmark_folds) name Hin) as Hlt.
    rewrite Hlen in Hlt. apply (Nat.lt_irrefl (length (od_keys benchmark_folds))), Hlt.
    by rewrite Hex.
  - intros Hall. f_equal. clear Hf Hk Hwf.
    induction (od_keys benchmark_folds) as [|n l IH]; [done|].
    rewrite filter_cons, decide_True by (apply Hall; left).
    f_equal. apply IH. intros; apply Hall. by right.
Qed.


Lemma fold_test_path_own : fold_test_path (config_fold config) = get_results_path +:+ "/pred/test/best".
Proof. unfold fold_test_path. by apply str_replace_same. Qed.

Lemma fold_dev_path_own : fold_dev_path (config_fold config) = get_results_path +:+ "/pred/dev/best".
Proof. unfold fold_dev_path. by apply str_replace_same. Qed.

Lemma reranker_runs_own sr rr :
  find_crossvalidated_results = OK (sr, rr) →
  od_get rr (config_fold config)
  = if bool_decide (config_fold config ∈ od_keys benchmark_folds)
       && path_exists (get_results_path +:+ "/pred/test/best")
    then Some {| dev := load_trec_run (get_results_path +:+ "/pred/dev/best");
                 test := load_trec_run (get_results_path +:+ "/pred/test/best") |}
    else None.
Proof.
  intros ->%find_crossvalidated_results_rr. rewrite load_reranker_runs_lookup.
  unfold fold_preds. by rewrite fold_test_path_own, fold_dev_path_own.
Qed.

Lemma evaluate_found_returns sr rr preds :
  find_crossvalidated_results = OK (sr, rr) →
  od_get rr (config_fold config) = Some preds →
  ∃ logs result, evaluate = (logs, OK result).
Proof.
  intros Hf Hg. destruct (get_fold_found sr rr preds Hf Hg) as [f Hfold].
  unfold evaluate. rewrite Hf. cbn. rewrite Hg.
  unfold get_fold. rewrite Hfold. cbn.
  destruct (bool_decide (length rr ≠ length benchmark_folds)); [by eexists _, _|].
  destruct (merge_preds_total (od_values rr) []) as [all_preds ->]. cbn.
  by eexists _, _.
Qed.

(** X2.  Once the first-stage runs are loaded, [evaluate] raises the
    missing-predictions error exactly when the configured fold is not a fold
    of the benchmark or its own test prediction file
    [<results>/pred/test/best] does not exist (lines 191-193, 250-253). *)
Theorem evaluate_raises_iff_no_test_file sr rr :
  find_crossvalidated_results = OK (sr, rr) →
  evaluate.2 = Raise (ValueError missing_predictions)
  ↔ config_fold config ∉ od_keys benchmark_folds
    ∨ path_exists (get_results_path +:+ "/pred/test/best") = false.
Proof.
  intros Hf. pose proof (reranker_runs_own sr rr Hf) as Hown.
  destruct (od_get rr (config_fold config)) as [preds|] eqn:Hg.
  - destruct (evaluate_found_returns sr rr preds Hf Hg) as (logs & result & ->).
    split; [done|]. intros [Hn|Hn].
    + rewrite bool_decide_false in Hown by done. done.
    + rewrite Hn, andb_false_r in Hown. done.
  - split.
    + intros _. destruct (decide (config_fold config ∈ od_keys benchmark_folds)) as [Hin|]; [|by left].
      right. rewrite bool_decide_true in Hown by done.
      by destruct (path_exists _).
    + intros _. unfold evaluate. rewrite Hf. cbn. by rewrite Hg.
Qed.

(** X5.  With predictions for all folds (lines 217-237): [evaluate]
    returns the four keys [fold_test_metrics], [fold_dev_metrics],
    [cv_metrics] and [interpolated_results] (the last differs from the key
    [interpolated_cv_metrics] of the partial case), with the pooled metrics
    computed without judgments passed and the interpolation run on the
    searcher and reranker runs, and logs the debug record, the two fold
    records, the cross-validation header and the verbose metrics records. *)
Theorem evaluate_all_folds sr rr preds :
  find_crossvalidated_results = OK (sr, rr) →
  od_get rr (config_fold config) = Some preds →
  length rr = length benchmark_folds →
  ∃ f all_preds, od_get benchmark_folds (config_fold config) = Some f ∧
    merge_preds (od_values rr) [] = OK all_preds ∧
    let dev_metrics :=
      benchmark_evaluate (dev preds)
        (Some (qrels_for benchmark_qrels (predict_dev f))) report_metrics in
    let test_metrics :=
      benchmark_evaluate (test preds)
        (Some (qrels_for benchmark_qrels (predict_test f))) report_metrics in
    let cv_metrics := benchmark_evaluate all_preds None report_metrics in
    let interpolated_results :=
      interpolated_eval sr rr (convert_metric (config_optimize config)) report_metrics in
    evaluate =
      ([(DEBUG, "results path: " +:+ get_results_path);
        (INFO, "rerank: fold=" +:+ config_fold config +:+ " dev metrics: "
               +:+ format_metrics_string dev_metrics);
        (INFO, "rerank: fold=" +:+ config_fold config +:+ " test metrics: "
               +:+ format_metrics_string test_metrics);
        (INFO, "rerank: average cross-validated metrics when choosing iteration based on '"
               +:+ config_optimize config +:+ "':")]
       ++ log_metrics_verbose cv_metrics
       ++ log_metrics_verbose (interp_score interpolated_results),
       OK [("fold_test_metrics", VMetrics test_metrics);
           ("fold_dev_metrics", VMetrics dev_metrics);
           ("cv_metrics", VMetrics cv_metrics);
           ("interpolated_results", VInterp interpolated_results)]).
Proof.
  intros Hf Hg Hlen. destruct (get_fold_found sr rr preds Hf Hg) as [f Hfold].
  destruct (merge_preds_total (od_values rr) []) as [all_preds Hm].
  exists f, all_preds. split; [done|]. split; [done|].
  unfold evaluate. rewrite Hf. cbn. rewrite Hg.
  unfold get_fold. rewrite Hfold. cbn.
  rewrite bool_decide_false by lia. rewrite Hm. cbn.
  rewrite !app_nil_r. reflexivity.
Qed.

Lemma load_searcher_runs_OK names : ∀ acc sr,
  load_searcher_runs names acc = OK sr →
  ∀ name, od_get sr name
    = if bool_decide (name ∈ names) then searcher_preds <$> rank_paths !! name
      else od_get acc name.
Proof.
  induction names as [|n names IH]; intros acc sr Hl name.
  - cbn in Hl. by injection Hl as <-.
  - cbn [load_searcher_runs] in Hl.
    destruct (rank_paths !! n) as [path|] eqn:Hp; [|done].
    rewrite (IH _ _ Hl), od_get_set.
    destruct (decide (name = n)) as [->|Hne].
    + rewrite (bool_decide_eq_true_2 (n ∈ n :: names)) by left.
      rewrite Hp. by destruct (bool_decide (n ∈ names)).
    + rewrite (bool_decide_ext (name ∈ n :: names) (name ∈ names)); [done|].
      rewrite elem_of_cons. split; [intros [?|?]; [contradiction|assumption] | by right].
Qed.

Lemma load_searcher_runs_paths names : ∀ acc sr,
  load_searcher_runs names acc = OK sr →
  Forall (λ name, is_Some (rank_paths !! name)) names.
Proof.
  induction names as [|n names IH]; intros acc sr Hl; [done|].
  cbn [load_searcher_runs] in Hl.
  destruct (rank_paths !! n) as [path|] eqn:Hp; [|done].
  apply Forall_cons. split; [by eexists|]. by apply (IH _ _ Hl).
Qed.

Lemma load_searcher_runs_total names : ∀ acc,
  Forall (λ name, is_Some (rank_paths !! name)) names →
  ∃ sr, load_searcher_runs names acc = OK sr.
Proof.
  induction names as [|n names IH]; intros acc Hall; [by eexists|].
  apply Forall_cons in Hall as [[path Hp] Hall].
  cbn [load_searcher_runs]. rewrite Hp. by apply IH.
Qed.


(** X3.  The searcher runs (lines 240-244): on success every fold of the
    benchmark has a first-stage run path and maps to the run loaded from
    it under both ["dev"] and ["test"]; nothing else is a key, and the two
    runs of every entry are the same. *)
Theorem searcher_runs_contents sr rr :
  find_crossvalidated_results = OK (sr, rr) →
  (∀ name, name ∈ od_keys benchmark_folds →
     ∃ path, rank_paths !! name = Some path ∧
       od_get sr name
       = Some {| dev := load_trec_run path; test := load_trec_run path |}) ∧
  (∀ name, name ∉ od_keys benchmark_folds → od_get sr name = None) ∧
  (∀ name p, od_get sr name = Some p → dev p = test p).
Proof.
  intros Hf. unfold find_crossvalidated_results in Hf.
  destruct (load_searcher_runs _ _) as [sr'|] eqn:Hl; [|done].
  cbn in Hf. injection Hf as <- _.
  pose proof (load_searcher_runs_OK _ _ _ Hl) as Hget.
  pose proof (load_searcher_runs_paths _ _ _ Hl) as Hall.
  rewrite Forall_forall in Hall.
  split_and!.
  - intros name Hin. destruct (Hall name Hin) as [path Hp]. exists path.
    split; [done|]. rewrite Hget, bool_decide_true by done. by rewrite Hp.
  - intros name Hn. by rewrite Hget, bool_decide_false.
  - intros name p. rewrite Hget. case_bool_decide; [|done].
    destruct (rank_paths !! name); [|done]. by intros [= <-].
Qed.




Context {B : Birch score Metrics}.

Lemma load_birch_runs_lookup names : ∀ (acc : odict string (odict string (Run score))) acc',
  (∀ name, od_get acc name = (λ p, [("test", test p)]) <$> od_get acc' name) →
  ∀ name, od_get (load_birch_runs names acc) name
          = (λ p, [("test", test p)]) <$> od_get (load_reranker_runs names acc') name.
Proof.
  induction names as [|n names IH]; intros acc acc' Hacc name; [apply Hacc|].
  cbn [load_birch_runs load_reranker_runs].
  destruct (path_exists _); [|by apply IH].
  apply IH. intros name'. unfold dd_set. rewrite (Hacc n).
  destruct (od_get acc' n) as [p|]; cbn.
  - rewrite !od_get_set. destruct (decide (name' = n)); [|apply Hacc].
    cbn. by rewrite decide_True.
  - rewrite !od_get_set. destruct (decide (name' = n)); [done|apply Hacc].
Qed.

(** X11.  [find_birch_crossvalidated_results] (lines 261-274) returns no
    searcher runs, and its reranker runs hold, for the folds that
    [find_crossvalidated_results] finds, the same test run under the one
    key ["test"]. *)
Theorem birch_runs_are_test_runs sr rr name :
  find_crossvalidated_results = OK (sr, rr) →
  find_birch_crossvalidated_results.1 = [] ∧
  od_get find_birch_crossvalidated_results.2 name
  = (λ p, [("test", test p)]) <$> od_get rr name.
Proof.
  intros ->%find_crossvalidated_results_rr. split; [done|].
  cbn. by apply load_birch_runs_lookup.
Qed.

(** X12.  [bircheval] (lines 173-179) has no guard for missing
    predictions: when the configured fold is a fold of the benchmark and
    its test prediction file exists it logs the default metrics of that
    file's run; otherwise [reranker_runs[fold]] raises [KeyError] and
    nothing is logged. *)
Theorem bircheval_outcome :
  bircheval =
    if bool_decide (config_fold config ∈ od_keys benchmark_folds)
       && path_exists (get_results_path +:+ "/pred/test/best")
    then ([(INFO, "rerank: fold=" +:+ config_fold config +:+ " test metrics: "
                  +:+ metrics_str (evaluate_default_metrics
                        (load_trec_run (get_results_path +:+ "/pred/test/best"))))],
          OK tt)
    else ([], Raise (KeyError (config_fold config))).
Proof.
  unfold bircheval, find_birch_crossvalidated_results, get_item.
  rewrite (load_birch_runs_lookup _ [] []) by done.
  rewrite load_reranker_runs_lookup. rewrite fold_test_path_own.
  destruct (_ && _); [|done]. cbn. rewrite decide_True by done.
  unfold fold_preds. cbn. by rewrite fold_test_path_own.
Qed.

Lemma qrels_judged_lookup_from (qrels : Qrels) qids : ∀ (m : Qrels) qid,
  foldl (λ m qid, match qrels !! qid with Some j => <[qid := j]> m | None => m end) m qids !! qid
  = if decide (qid ∈ qids)
    then match qrels !! qid with Some j => Some j | None => m !! qid end
    else m !! qid.
Proof.
  induction qids as [|q rest IH]; intros m qid; cbn [foldl].
  - rewrite decide_False; [done|]. apply not_elem_of_nil.
  - rewrite IH. destruct (decide (qid = q)) as [->|Hne].
    + rewrite (decide_True (P := q ∈ q :: rest)) by left.
      destruct (qrels !! q) eqn:Hq.
      * rewrite lookup_insert_eq. by destruct (decide (q ∈ rest)).
      * by destruct (decide (q ∈ rest)).
    + assert (m !! qid = match qrels !! q with Some j => <[q := j]> m | None => m end !! qid) as <-.
      { destruct (qrels !! q); [|done]. by rewrite lookup_insert_ne. }
      destruct (decide (qid ∈ rest)) as [Hin|Hnin].
      * rewrite decide_True; [done|]. by right.
      * rewrite decide_False; [done|]. by intros [?|?]%elem_of_cons.
Qed.

(** X10.  The dev judgments of [rerank_run] (line 92) are the
    benchmark's judgments restricted to the given queries, hence a
    sub-dictionary of them: an unjudged query gets no entry, where
    [evaluate] (lines 195, 200) gives it the empty one; on every query the
    judgments of [evaluate] are those of [rerank_run] with that default. *)
Theorem qrels_judged_restricts (qrels : Qrels) (qids : list string) :
  (∀ qid, qrels_judged qrels qids !! qid
          = if decide (qid ∈ qids) then qrels !! qid else None) ∧
  qrels_judged qrels qids ⊆ qrels ∧
  (∀ qid, qrels_for qrels qids !! qid
          = if decide (qid ∈ qids)
            then Some (default ∅ (qrels_judged qrels qids !! qid)) else None).
Proof.
  assert (∀ qid, qrels_judged qrels qids !! qid
          = if decide (qid ∈ qids) then qrels !! qid else None) as Hl.
  { intros qid. unfold qrels_judged. rewrite qrels_judged_lookup_from.
    rewrite lookup_empty. destruct (decide _); [|done]. by destruct (qrels !! qid). }
  split_and!; [done|..].
  - apply map_subseteq_spec. intros qid j. rewrite Hl. by destruct (decide _).
  - intros qid. rewrite qrels_for_lookup, Hl. by destruct (decide _).
Qed.

End evaluate_facts.

(** *** The example inputs *)

Lemma ex_run_wf : run_wf ex_run.
Proof.
  split; [unfold od_wf; decide_closed|].
  repeat constructor; unfold od_wf; decide_closed.
Defined.

Lemma ex_files_wf files :
  Forall (λ fr : string * Run Z, run_wf fr.2) files →
  ∀ path, run_wf (load_trec_run (Task := ex_task files) path).
Proof.
  intros Hall path. simpl. destruct (od_get files path) as [r|] eqn:Hr; simpl.
  - apply od_get_elem_of in Hr. rewrite Forall_forall in Hall. apply (Hall _ Hr).
  - split; constructor.
Defined.

Lemma ex_files_all_wf :
  Forall (λ fr : string * Run Z, run_wf fr.2) (ex_files_s1 ++ ex_files_s2).
Proof.
  repeat constructor; unfold od_wf; decide_closed.
Defined.

(** C3 (amended) on the example run, with thresholds 1 and 2. *)
Lemma sub_runs_contents_witness :
  ∃ D T : Run Z,
    dev_run (ex_config 1 2) [("s1", ex_fold_s1)] ex_run = OK D ∧
    test_run (ex_config 1 2) [("s1", ex_fold_s1)] ex_run = OK T ∧
    sublist (od_keys D) (od_keys ex_run) ∧ sublist (od_keys T) (od_keys ex_run) ∧
    (∀ qid docs', od_get D qid = Some docs' ↔
       qid ∈ ["q2"] ∧ docs' ≠ [] ∧
       ∃ docs, od_get ex_run qid = Some docs ∧ docs' = take 1 docs) ∧
    (∀ qid docs', od_get T qid = Some docs' ↔
       qid ∈ ["q3"] ∧ docs' ≠ [] ∧
       ∃ docs, od_get ex_run qid = Some docs ∧ docs' = take 2 docs).
Proof.
  exact (sub_runs_contents (ex_config 1 2) [("s1", ex_fold_s1)] ex_fold_s1
           ex_run ex_run_wf eq_refl).
Defined.

(** C4 on the example run, with thresholds 1 and 2. *)
Lemma sub_run_idempotent_witness :
  ∃ D T : Run Z,
    dev_run (ex_config 1 2) [("s1", ex_fold_s1)] ex_run = OK D ∧
    dev_run (ex_config 1 2) [("s1", ex_fold_s1)] D = OK D ∧
    test_run (ex_config 1 2) [("s1", ex_fold_s1)] ex_run = OK T ∧
    test_run (ex_config 1 2) [("s1", ex_fold_s1)] T = OK T.
Proof.
  exact (sub_run_idempotent (ex_config 1 2) [("s1", ex_fold_s1)] ex_fold_s1
           ex_run ex_run_wf eq_refl).
Defined.

(** C3 as stated fails: with [threshold = 0] the dev query q2 of the run is
    not a query of the dev sub-run, which is empty. *)
Lemma dev_run_threshold_zero :
  dev_run (ex_config 0 2) [("s1", ex_fold_s1)] ex_run = OK [] ∧
  ¬ (∀ D : Run Z, dev_run (ex_config 0 2) [("s1", ex_fold_s1)] ex_run = OK D →
       ∀ qid, qid ∈ od_keys D ↔ qid ∈ od_keys ex_run ∧ qid ∈ predict_dev ex_fold_s1).
Proof.
  split; [reflexivity|].
  intros Hall. specialize (Hall [] eq_refl "q2").
  apply (proj1 (elem_of_nil "q2")), Hall. split.
  - decide_closed.
  - apply list_elem_of_singleton. reflexivity.
Qed.

(** C1 before any prediction file exists. *)
Lemma evaluate_missing_predictions_witness :
  evaluate (T := ex_task []) =
    ([(DEBUG, "results path: out/fold-s1"); (ERROR, missing_predictions)],
     Raise (ValueError missing_predictions)).
Proof.
  exact (evaluate_missing_predictions (T := ex_task [])
           ex_searcher_runs [] eq_refl eq_refl).
Defined.

(** C2 with the predictions of fold s1 only: the log cites 1/2 folds. *)
Lemma evaluate_partial_folds_witness :
  ∃ f, od_get (benchmark_folds (Task := ex_task ex_files_s1)) "s1" = Some f ∧
    evaluate (T := ex_task ex_files_s1) =
      ([(DEBUG, "results path: out/fold-s1");
        (INFO, "rerank: fold=s1 dev metrics: -");
        (INFO, "rerank: fold=s1 test metrics: -");
        (INFO, "rerank: skipping cross-validated metrics because results exist for only 1/2 folds")],
       OK [("fold_test_metrics",
            VMetrics ([("q3", [("d1", 7%Z); ("d2", 3%Z)])],
                      Some (qrels_for {[ "q2" := {[ "d1" := 1%Z ]} ]} (predict_test f))));
           ("fold_dev_metrics",
            VMetrics ([("q2", [("d1", 4%Z)])],
                      Some (qrels_for {[ "q2" := {[ "d1" := 1%Z ]} ]} (predict_dev f))));
           ("cv_metrics", VNone);
           ("interpolated_cv_metrics", VNone)]).
Proof.
  refine (evaluate_partial_folds (T := ex_task ex_files_s1)
            ex_searcher_runs [("s1", ex_preds_s1)] ex_preds_s1 eq_refl eq_refl _).
  vm_compute. lia.
Defined.

(** C8 with the predictions of fold s1 only. *)
Lemma evaluate_qrels_cover_witness :
  ∃ f logs result,
    od_get (benchmark_folds (Task := ex_task ex_files_s1)) "s1" = Some f ∧
    evaluate (T := ex_task ex_files_s1) = (logs, OK result) ∧
    od_get result "fold_dev_metrics"
      = Some (VMetrics ([("q2", [("d1", 4%Z)])],
                Some (qrels_for {[ "q2" := {[ "d1" := 1%Z ]} ]} (predict_dev f)))) ∧
    od_get result "fold_test_metrics"
      = Some (VMetrics ([("q3", [("d1", 7%Z); ("d2", 3%Z)])],
                Some (qrels_for {[ "q2" := {[ "d1" := 1%Z ]} ]} (predict_test f)))) ∧
    (∀ qid, qid ∈ predict_dev f →
       qrels_for {[ "q2" := {[ "d1" := 1%Z ]} ]} (predict_dev f) !! qid
       = Some (default ∅ (({[ "q2" := {[ "d1" := 1%Z ]} ]} : Qrels) !! qid))) ∧
    (∀ qid, qid ∈ predict_test f →
       qrels_for {[ "q2" := {[ "d1" := 1%Z ]} ]} (predict_test f) !! qid
       = Some (default ∅ (({[ "q2" := {[ "d1" := 1%Z ]} ]} : Qrels) !! qid))).
Proof.
  exact (evaluate_qrels_cover (T := ex_task ex_files_s1)
           ex_searcher_runs [("s1", ex_preds_s1)] ex_preds_s1 eq_refl eq_refl).
Defined.

(** C5 (amended) with the predictions of both folds. *)
Lemma evaluate_pools_test_predictions_witness :
  ∃ all_preds logs result,
    merge_preds [ex_preds_s1; ex_preds_s2] [] = OK all_preds ∧
    evaluate (T := ex_task (ex_files_s1 ++ ex_files_s2)) = (logs, OK result) ∧
    od_get result "cv_metrics" = Some (VMetrics (all_preds, None)) ∧
    (∀ qid, qid ∈ od_keys all_preds ↔
       ∃ p, p ∈ [ex_preds_s1; ex_preds_s2] ∧ qid ∈ od_keys (test p)) ∧
    (∀ qid docid,
       score_of all_preds qid docid = last_score [ex_preds_s1; ex_preds_s2] qid docid).
Proof.
  exact (evaluate_pools_test_predictions (T := ex_task (ex_files_s1 ++ ex_files_s2))
           ex_searcher_runs [("s1", ex_preds_s1); ("s2", ex_preds_s2)] ex_preds_s1
           (ex_files_wf _ ex_files_all_wf) eq_refl eq_refl eq_refl).
Defined.

(** C5 as stated fails: fold s1 predicts 7 for (q3, d1) and fold s2
    predicts 5; the merged run handed to the evaluator holds 5 only. *)
Lemma pooled_run_overwrites :
  find_crossvalidated_results (T := ex_task (ex_files_s1 ++ ex_files_s2))
    = OK (ex_searcher_runs, [("s1", ex_preds_s1); ("s2", ex_preds_s2)]) ∧
  od_get ex_files_s1 "out/fold-s1/pred/test/best" = Some (test ex_preds_s1) ∧
  od_get ex_files_s2 "out/fold-s2/pred/test/best" = Some (test ex_preds_s2) ∧
  (evaluate (T := ex_task (ex_files_s1 ++ ex_files_s2))).2
    = OK [("fold_test_metrics", VMetrics (test ex_preds_s1, Some {[ "q3" := ∅ ]}));
          ("fold_dev_metrics", VMetrics (dev ex_preds_s1, Some {[ "q2" := {[ "d1" := 1%Z ]} ]}));
          ("cv_metrics", VMetrics ([("q3", [("d1", 5%Z); ("d2", 3%Z)])], None));
          ("interpolated_results", VInterp tt)] ∧
  ¬ (∀ p qid docid s,
       p ∈ [ex_preds_s1; ex_preds_s2] →
       score_of (test p) qid docid = Some s →
       score_of [("q3", [("d1", 5%Z); ("d2", 3%Z)])] qid docid = Some s).
Proof.
  split_and!; [reflexivity|reflexivity|reflexivity| |].
  - vm_compute. reflexivity.
  - intros Hall. specialize (Hall ex_preds_s1 "q3" "d1" 7%Z).
    discriminate Hall; [left|reflexivity].
Qed.

Lemma ex_folds_wf files : od_wf (benchmark_folds (Task := ex_task files)).
Proof. unfold od_wf. decide_closed. Defined.

Lemma reranker_runs_closed_form_witness :
  [("s1", ex_preds_s1)]
  = (λ name, (name, fold_preds (T := ex_task ex_files_s1) name))
      <$> filter (λ name, path_exists (Task := ex_task ex_files_s1)
                            (fold_test_path (T := ex_task ex_files_s1) name) = true)
            ["s1"; "s2"] ∧
  sublist ["s1"] ["s1"; "s2"] ∧
  (1 ≤ 2)%nat ∧
  (1%nat = 2%nat ↔
   ∀ name, name ∈ ["s1"; "s2"] →
     path_exists (Task := ex_task ex_files_s1)
       (fold_test_path (T := ex_task ex_files_s1) name) = true).
Proof.
  exact (reranker_runs_closed_form (T := ex_task ex_files_s1)
           ex_searcher_runs [("s1", ex_preds_s1)] (ex_folds_wf _) eq_refl).
Defined.

Lemma evaluate_raises_iff_no_test_file_witness :
  (evaluate (T := ex_task [])).2 = Raise (ValueError missing_predictions)
  ↔ "s1" ∉ ["s1"; "s2"]
    ∨ path_exists (Task := ex_task []) "out/fold-s1/pred/test/best" = false.
Proof.
  exact (evaluate_raises_iff_no_test_file (T := ex_task [])
           ex_searcher_runs [] eq_refl).
Defined.

Lemma searcher_runs_contents_witness :
  (∀ name, name ∈ ["s1"; "s2"] →
     ∃ path, rank_paths (Task := ex_task ex_files_s1) !! name = Some path ∧
       od_get ex_searcher_runs name
       = Some {| dev := load_trec_run (Task := ex_task ex_files_s1) path;
                 test := load_trec_run (Task := ex_task ex_files_s1) path |}) ∧
  (∀ name, name ∉ ["s1"; "s2"] → od_get ex_searcher_runs name = None) ∧
  (∀ name p, od_get ex_searcher_runs name = Some p → dev p = test p).
Proof.
  exact (searcher_runs_contents (T := ex_task ex_files_s1)
           ex_searcher_runs [("s1", ex_preds_s1)] eq_refl).
Defined.

Lemma evaluate_all_folds_witness :
  ∃ f all_preds,
    od_get (benchmark_folds (Task := ex_task (ex_files_s1 ++ ex_files_s2))) "s1" = Some f ∧
    merge_preds [ex_preds_s1; ex_preds_s2] [] = OK all_preds ∧
    evaluate (T := ex_task (ex_files_s1 ++ ex_files_s2)) =
      ([(DEBUG, "results path: out/fold-s1");
        (INFO, "rerank: fold=s1 dev metrics: -");
        (INFO, "rerank: fold=s1 test metrics: -");
        (INFO, "rerank: average cross-validated metrics when choosing iteration based on 'AP':")],
       OK [("fold_test_metrics",
            VMetrics (test ex_preds_s1,
                      Some (qrels_for {[ "q2" := {[ "d1" := 1%Z ]} ]} (predict_test f))));
           ("fold_dev_metrics",
            VMetrics (dev ex_preds_s1,
                      Some (qrels_for {[ "q2" := {[ "d1" := 1%Z ]} ]} (predict_dev f))));
           ("cv_metrics", VMetrics (all_preds, None));
           ("interpolated_results", VInterp tt)]).
Proof.
  exact (evaluate_all_folds (T := ex_task (ex_files_s1 ++ ex_files_s2))
           ex_searcher_runs [("s1", ex_preds_s1); ("s2", ex_preds_s2)] ex_preds_s1
           eq_refl eq_refl eq_refl).
Defined.

Lemma birch_runs_are_test_runs_witness :
  (find_birch_crossvalidated_results (T := ex_task ex_files_s1)).1 = [] ∧
  od_get (find_birch_crossvalidated_results (T := ex_task ex_files_s1)).2 "s1"
  = (λ p, [("test", test p)]) <$> od_get [("s1", ex_preds_s1)] "s1".
Proof.
  exact (birch_runs_are_test_runs (T := ex_task ex_files_s1)
           ex_searcher_runs [("s1", ex_preds_s1)] "s1" eq_refl).
Defined.

Lemma ex_disjoint_wf :
  run_wf (concat (test <$> [ex_preds_s1; {| dev := []; test := [("q4", [("d1", 2%Z)])] |}])).
Proof.
  split; [unfold od_wf; decide_closed|].
  repeat constructor; unfold od_wf; decide_closed.
Defined.

Lemma merge_disjoint_folds_witness :
  merge_preds [ex_preds_s1; {| dev := []; test := [("q4", [("d1", 2%Z)])] |}] []
  = OK [("q3", [("d1", 7%Z); ("d2", 3%Z)]); ("q4", [("d1", 2%Z)])].
Proof.
  exact (merge_disjoint_folds [ex_preds_s1; {| dev := []; test := [("q4", [("d1", 2%Z)])] |}]
           ex_disjoint_wf).
Defined.

Lemma sub_runs_unknown_fold_witness :
  train_run_from [("s2", ex_fold_s2)] "s1" ex_run = Raise (KeyError "s1") ∧
  dev_run (ex_config 1 2) [("s2", ex_fold_s2)] ex_run = Raise (KeyError "s1") ∧
  test_run (ex_config 1 2) [("s2", ex_fold_s2)] ex_run = Raise (KeyError "s1").
Proof.
  exact (sub_runs_unknown_fold (ex_config 1 2) [("s2", ex_fold_s2)] ex_run eq_refl).
Defined.

Lemma train_run_closed_form_witness :
  train_run_from [("s2", ex_fold_s2)] "s2" ex_run
  = OK (filter (λ qd, qd.1 ∈ ["q2"]) ex_run) ∧
  (od_wf ex_run → ∀ qid docs,
     od_get (filter (λ qd, qd.1 ∈ ["q2"]) ex_run) qid = Some docs
     ↔ qid ∈ ["q2"] ∧ od_get ex_run qid = Some docs).
Proof.
  exact (train_run_closed_form [("s2", ex_fold_s2)] "s2" ex_fold_s2 ex_run eq_refl).
Defined.

End RerankFacts.

(** ** The CodeSearchNet corpus benchmark *)

Module CodeSearchNetFacts.
Import CodeSearchNet PyFacts.

Lemma pretty_N_char_no_space x : Ascii.is_space (pretty_N_char x) = false.
Proof. unfold pretty_N_char. by repeat case_match. Qed.

Lemma pretty_N_go_word x : ∀ s, word s → word (pretty_N_go x s).
Proof.
  induction (N.lt_wf_0 x) as [x _ IH]; intros s Hs.
  destruct (decide (x = 0)%N) as [->|Hx]; [by rewrite pretty_N_go_0|].
  rewrite pretty_N_go_step by lia. apply IH.
  - apply N.div_lt; lia.
  - simpl. by rewrite pretty_N_char_no_space.
Qed.

Lemma pretty_N_go_length x : ∀ s,
  (String.length s ≤ String.length (pretty_N_go x s))%nat.
Proof.
  induction (N.lt_wf_0 x) as [x _ IH]; intros s.
  destruct (decide (x = 0)%N) as [->|Hx]; [by rewrite pretty_N_go_0|].
  rewrite pretty_N_go_step by lia.
  etrans; [|apply IH, N.div_lt; lia]. simpl. lia.
Qed.

Lemma pretty_nat_word (n : nat) : word (pretty n) ∧ pretty n ≠ "".
Proof.
  unfold pretty, pretty_nat, pretty, pretty_N.
  case_decide as Hn; [done|]. split.
  - by apply pretty_N_go_word.
  - rewrite pretty_N_go_step by lia. intros Heq.
    pose proof (pretty_N_go_length (N.of_nat n `div` 10)
                  (String (pretty_N_char (N.of_nat n `mod` 10)) "")) as Hlen.
    rewrite Heq in Hlen. simpl in Hlen. lia.
Qed.

Lemma append_nil_r (s : string) : s +:+ "" = s.
Proof.
  induction s as [|c s IH]; [done|].
  change (String c (s +:+ "") = String c s). by rewrite IH.
Qed.

Lemma words_go_word w : ∀ r c rest,
  word w → Ascii.is_space c = true →
  String.words_go (Some r) (w +:+ String c rest)
  = String.rev_app r w :: String.words_go None rest.
Proof.
  induction w as [|a w IH]; intros r c rest Hw Hc.
  - change (String.words_go (Some r) (String c rest) = String.rev_app r "" :: String.words_go None rest).
    simpl. by rewrite Hc.
  - change (String.words_go (Some r) (String a (w +:+ String c rest))
            = String.rev_app (String a r) w :: String.words_go None rest).
    simpl in Hw. apply andb_prop_elim in Hw as [Ha Hw].
    apply negb_prop_elim, Is_true_false in Ha.
    simpl. rewrite Ha. simpl. by apply IH.
Qed.

Lemma words_word a w c rest :
  word (String a w) → Ascii.is_space c = true →
  String.words (String a w +:+ String c rest) = String a w :: String.words rest.
Proof.
  intros Hw Hc. unfold String.words.
  change (String.words_go None (String a (w +:+ String c rest))
          = String a w :: String.words_go None rest).
  simpl in Hw. apply andb_prop_elim in Hw as [Ha Hw].
  apply negb_prop_elim, Is_true_false in Ha.
  simpl. rewrite Ha. simpl. by rewrite words_go_word.
Qed.

Lemma qrels_line_words (n : nat) docid :
  String.words (pretty n +:+ " Q0 " +:+ docid +:+ " 1" +:+ String "010" "")
  = pretty n :: "Q0" :: String.words (docid +:+ " 1" +:+ String "010" "").
Proof.
  destruct (pretty_nat_word n) as [Hw Hne].
  destruct (pretty n) as [|a w] eqn:Hp; [done|].
  change (" Q0 " +:+ ?x) with (String " " ("Q0" +:+ String " " x)).
  rewrite words_word by done. by rewrite words_word.
Qed.

Section download_facts.
Context {C : Collection}.

Lemma process_doc_numbered st qids data :
  numbered st → numbered (process_doc (st, qids) data).1.
Proof.
  intros [Hmap Hlines]. unfold process_doc.
  set (qid := default (pretty (size (query_map st))) (query_map st !! code_raw data)).
  assert (∃ n : nat, qid = pretty n) as [n Hn].
  { unfold qid. destruct (query_map st !! code_raw data) as [v|] eqn:Hv; simpl; eauto. }
  assert (Forall qrels_line
            (qrel_file st ++ [qid +:+ " Q0 " +:+ get_docid (url data) (code_raw data)
                              +:+ " 1" +:+ String "010" ""])) as Hlines'.
  { apply Forall_app. split; [done|]. apply Forall_singleton.
    exists n, (get_docid (url data) (code_raw data)). by rewrite Hn. }
  destruct (query_map st !! docstring_raw data) eqn:Hd; simpl; split; simpl; try done.
  intros k v. rewrite lookup_insert. case_decide; [|by apply Hmap].
  intros [= <-]. eauto.
Qed.

Lemma foldl_process_doc_numbered docs : ∀ acc,
  numbered acc.1 → numbered (foldl process_doc acc docs).1.
Proof.
  induction docs as [|d docs IH]; intros [st qids] Hst; simpl; [done|].
  apply IH. by apply process_doc_numbered.
Qed.

Lemma process_set_numbered st lines :
  numbered st → numbered (process_set st lines).1.
Proof. intros Hst. unfold process_set. by apply foldl_process_doc_numbered. Qed.

(** C7 (amended).  Every qrels line the benchmark writes has the form
    [<queryid> Q0 <docid> 1]: the query id is a decimal number, the second
    whitespace-delimited field is the literal Q0, and the grade is 1. *)
Theorem qrels_lines_format (corpus : string → list Json) (line : string) :
  line ∈ out_qrels (download_if_missing corpus) →
  ∃ (n : nat) docid rest,
    line = pretty n +:+ " Q0 " +:+ docid +:+ " 1" +:+ String "010" "" ∧
    String.words line = pretty n :: "Q0" :: rest.
Proof.
  unfold download_if_missing.
  set (st0 := {| query_map := ∅; qrel_file := []; topic_file := []; warnings := [] |}).
  assert (numbered st0) as H0.
  { split; [|constructor]. intros k v. simpl. by rewrite lookup_empty. }
  pose proof (process_set_numbered st0 (corpus "train") H0) as H1.
  destruct (process_set st0 (corpus "train")) as [st1 train]. simpl in H1.
  pose proof (process_set_numbered st1 (corpus "valid") H1) as H2.
  destruct (process_set st1 (corpus "valid")) as [st2 valid]. simpl in H2.
  pose proof (process_set_numbered st2 (corpus "test") H2) as H3.
  destruct (process_set st2 (corpus "test")) as [st3 test]. simpl in *.
  destruct H3 as [_ Hlines]. rewrite Forall_forall in Hlines.
  intros Hin. destruct (Hlines _ Hin) as (n & docid & ->).
  exists n, docid. eexists. split; [done|]. apply qrels_line_words.
Qed.
Lemma process_doc_fresh_ids K prev acc data :
  fresh_ids K prev acc →
  docstring_raw data ∈ K → code_raw data ∉ K →
  fresh_ids K prev (process_doc acc data).
Proof.
  destruct acc as [st qids]. intros (Hdom & Hlt & Hnd) Hdoc Hcode. simpl in *.
  assert (query_map st !! code_raw data = None) as Hnone.
  { destruct (query_map st !! code_raw data) eqn:Hc; [|done].
    exfalso. apply Hcode, Hdom. eauto. }
  unfold process_doc. rewrite Hnone. simpl.
  destruct (query_map st !! docstring_raw data) eqn:Hd; simpl.
  - split_and!; done.
  - split_and!; simpl.
    + intros k. rewrite lookup_insert. case_decide as Hk; [by subst|]. apply Hdom.
    + intros q. rewrite map_size_insert_None by done.
      rewrite app_assoc, elem_of_app, list_elem_of_singleton.
      intros [Hq| ->].
      * destruct (Hlt q Hq) as (n & -> & Hn). exists n. split; [done|lia].
      * exists (size (query_map st)). split; [done|lia].
    + rewrite app_assoc. apply NoDup_app. split_and!; [done| |apply NoDup_singleton].
      intros q Hq ->%list_elem_of_singleton.
      destruct (Hlt _ Hq) as (n & Hn & Hlt').
      apply (inj pretty) in Hn. lia.
Qed.

Lemma foldl_process_doc_fresh_ids K prev docs : ∀ acc,
  fresh_ids K prev acc →
  (∀ d, d ∈ docs → docstring_raw d ∈ K ∧ code_raw d ∉ K) →
  fresh_ids K prev (foldl process_doc acc docs).
Proof.
  induction docs as [|d docs IH]; intros acc Hacc Hdocs; simpl; [done|].
  apply IH.
  - apply process_doc_fresh_ids; [done|apply Hdocs; left..].
  - intros d' Hd'. apply Hdocs. by right.
Qed.

(** Where no document's raw code is the raw docstring of a document, the
    query ids of the three sets are pairwise distinct. *)
Lemma distinct_qids_without_clash (corpus : string → list Json) f :
  (∀ d d', d ∈ all_docs corpus → d' ∈ all_docs corpus → code_raw d ≠ docstring_raw d') →
  od_get (out_folds (download_if_missing corpus)) "s1" = Some f →
  NoDup (Rerank.train_qids f ++ Rerank.predict_dev f ++ Rerank.predict_test f).
Proof.
  intros Hclash. unfold download_if_missing.
  set (st0 := {| query_map := ∅; qrel_file := []; topic_file := []; warnings := [] |}).
  set (K := docstring_raw <$> all_docs corpus).
  assert (∀ set_name, set_name ∈ ["train"; "valid"; "test"] →
          ∀ d, d ∈ generate_parsed_doc_from_gz (corpus set_name) →
               docstring_raw d ∈ K ∧ code_raw d ∉ K) as Hdocs.
  { intros set_name Hset d Hd.
    assert (d ∈ all_docs corpus) as Hall.
    { unfold all_docs. rewrite !elem_of_app.
      repeat (apply elem_of_cons in Hset as [->|Hset]); [auto..|].
      by apply elem_of_nil in Hset. }
    split.
    - apply list_elem_of_fmap. eauto.
    - intros (d' & Heq & Hd')%list_elem_of_fmap. by apply (Hclash d d'). }
  assert (fresh_ids K [] (st0, [])) as H0.
  { split_and!; simpl; [|by intros q ?%elem_of_nil|constructor].
    intros k. rewrite lookup_empty. by intros [? ?]. }
  apply (foldl_process_doc_fresh_ids K [] (generate_parsed_doc_from_gz (corpus "train")))
    in H0; [|apply Hdocs; left].
  fold (process_set st0 (corpus "train")) in H0.
  destruct (process_set st0 (corpus "train")) as [st1 train].
  assert (fresh_ids K train (st1, [])) as H1.
  { destruct H0 as (? & ? & ?). split_and!; simpl in *; by rewrite ?app_nil_r. }
  apply (foldl_process_doc_fresh_ids K train (generate_parsed_doc_from_gz (corpus "valid")))
    in H1; [|apply Hdocs; right; left].
  fold (process_set st1 (corpus "valid")) in H1.
  destruct (process_set st1 (corpus "valid")) as [st2 valid].
  assert (fresh_ids K (train ++ valid) (st2, [])) as H2.
  { destruct H1 as (? & ? & ?). split_and!; simpl in *; by rewrite ?app_nil_r. }
  apply (foldl_process_doc_fresh_ids K (train ++ valid)
           (generate_parsed_doc_from_gz (corpus "test")))
    in H2; [|apply Hdocs; right; right; left].
  fold (process_set st2 (corpus "test")) in H2.
  destruct (process_set st2 (corpus "test")) as [st3 test].
  destruct H2 as (_ & _ & Hnd). simpl in *.
  intros [= <-]. simpl. by rewrite app_assoc.
Qed.
Lemma process_doc_qids st q data :
  process_doc (st, q) data
  = ((process_doc (st, []) data).1, q ++ (process_doc (st, []) data).2).
Proof.
  unfold process_doc.
  destruct (query_map st !! docstring_raw data); cbn; by rewrite ?app_nil_r.
Qed.

Lemma foldl_process_doc_qids docs : ∀ st q,
  foldl process_doc (st, q) docs
  = ((foldl process_doc (st, []) docs).1, q ++ (foldl process_doc (st, []) docs).2).
Proof.
  induction docs as [|d docs IH]; intros st q; cbn [foldl].
  - by rewrite app_nil_r.
  - rewrite (process_doc_qids st q).
    destruct (process_doc (st, []) d) as [st' x]. cbn [fst snd].
    rewrite (IH st' (q ++ x)), (IH st' x). cbn [fst snd]. by rewrite app_assoc.
Qed.

(** The three sets are read as one stream of documents. *)
Lemma download_if_missing_stream (corpus : string → list Json) :
  let r := foldl process_doc
             ({| query_map := ∅; qrel_file := []; topic_file := []; warnings := [] |}, [])
             (all_docs corpus) in
  ∃ f, out_folds (download_if_missing corpus) = [("s1", f)] ∧
    Rerank.train_qids f ++ Rerank.predict_dev f ++ Rerank.predict_test f = r.2 ∧
    out_query_map (download_if_missing corpus) = query_map r.1 ∧
    out_qrels (download_if_missing corpus) = qrel_file r.1 ∧
    out_topics (download_if_missing corpus) = topic_file r.1.
Proof.
  unfold download_if_missing, all_docs, process_set.
  set (st0 := {| query_map := ∅; qrel_file := []; topic_file := []; warnings := [] |}).
  rewrite !foldl_app.
  destruct (foldl process_doc (st0, []) (generate_parsed_doc_from_gz (corpus "train")))
    as [st1 train].
  rewrite (foldl_process_doc_qids _ st1 train).
  destruct (foldl process_doc (st1, []) (generate_parsed_doc_from_gz (corpus "valid")))
    as [st2 valid]. cbn [fst snd].
  rewrite (foldl_process_doc_qids _ st2 (train ++ valid)).
  destruct (foldl process_doc (st2, []) (generate_parsed_doc_from_gz (corpus "test")))
    as [st3 test]. cbn.
  eexists. split; [done|]. cbn. by rewrite app_assoc.
Qed.

Lemma foldl_process_doc_inv (P : State * list string → Prop) docs :
  (∀ acc d, d ∈ docs → P acc → P (process_doc acc d)) →
  ∀ acc, P acc → P (foldl process_doc acc docs).
Proof.
  induction docs as [|d docs IH]; intros Hstep acc Hacc; [done|].
  cbn [foldl]. apply IH.
  - intros acc' d' Hd'. apply Hstep. by right.
  - apply Hstep; [left|done].
Qed.

Lemma foldl_process_doc_qrels docs : ∀ acc,
  length (qrel_file (foldl process_doc acc docs).1)
  = (length (qrel_file acc.1) + length docs)%nat.
Proof.
  induction docs as [|d docs IH]; intros [st q]; cbn [foldl].
  - cbn. lia.
  - rewrite IH. unfold process_doc.
    destruct (query_map st !! docstring_raw d); cbn; rewrite length_app; cbn; lia.
Qed.

Lemma process_doc_counts acc d :
  length (topic_file acc.1) = size (query_map acc.1) ∧
  length acc.2 = size (query_map acc.1) →
  length (topic_file (process_doc acc d).1) = size (query_map (process_doc acc d).1) ∧
  length (process_doc acc d).2 = size (query_map (process_doc acc d).1).
Proof.
  destruct acc as [st q]. cbn. intros [Ht Hq]. unfold process_doc.
  destruct (query_map st !! docstring_raw d) eqn:Hd; cbn; [done|].
  rewrite map_size_insert_None by done. rewrite !length_app. cbn. lia.
Qed.

Lemma foldl_process_doc_size docs : ∀ acc,
  (size (query_map (foldl process_doc acc docs).1)
   ≤ size (query_map acc.1) + length docs)%nat.
Proof.
  induction docs as [|d docs IH]; intros [st q]; cbn [foldl].
  - cbn. lia.
  - etrans; [apply IH|]. unfold process_doc.
    destruct (query_map st !! docstring_raw d) eqn:Hd; cbn; [lia|].
    rewrite map_size_insert_None by done. lia.
Qed.

(** X13.  The bookkeeping of [download_if_missing] (lines 97-130): one
    qrels line per document read; one topic per entry of the query map;
    the fold file has the single fold s1, whose three id lists together
    have one id per entry of the query map; and the map has at most one
    entry per document. *)
Theorem download_counts (corpus : string → list Json) :
  let out := download_if_missing corpus in
  length (out_qrels out) = length (all_docs corpus) ∧
  length (out_topics out) = size (out_query_map out) ∧
  (∃ f, out_folds out = [("s1", f)] ∧
        length (Rerank.train_qids f ++ Rerank.predict_dev f ++ Rerank.predict_test f)
        = size (out_query_map out)) ∧
  (size (out_query_map out) ≤ length (all_docs corpus))%nat.
Proof.
  cbn zeta.
  destruct (download_if_missing_stream corpus) as (f & Hf & Hids & -> & -> & ->).
  rewrite Hf.
  set (st0 := {| query_map := ∅; qrel_file := []; topic_file := []; warnings := [] |}) in *.
  pose proof (foldl_process_doc_inv
    (λ acc, length (topic_file acc.1) = size (query_map acc.1) ∧
            length acc.2 = size (query_map acc.1))
    (all_docs corpus) (λ acc d _, process_doc_counts acc d) (st0, [])) as [Ht Hq]; [done|].
  split_and!.
  - by rewrite foldl_process_doc_qrels.
  - done.
  - exists f. split; [done|]. by rewrite Hids.
  - etrans; [apply foldl_process_doc_size|]. cbn. by rewrite map_size_empty.
Qed.

Lemma foldl_process_doc_dom docs : ∀ acc k,
  is_Some (query_map (foldl process_doc acc docs).1 !! k)
  ↔ is_Some (query_map acc.1 !! k) ∨ k ∈ (docstring_raw <$> docs).
Proof.
  induction docs as [|d docs IH]; intros [st q] k; cbn [foldl].
  - cbn. split; [by left|]. intros [?|Hin]; [done|]. by apply elem_of_nil in Hin.
  - rewrite IH. rewrite fmap_cons, elem_of_cons. unfold process_doc.
    destruct (query_map st !! docstring_raw d) eqn:Hd; cbn.
    + split; [intros [?|?]; auto|]. intros [?|[->|?]]; [by left| |by right].
      left. by eexists.
    + rewrite lookup_insert. case_decide as Hk.
      * subst. split; [auto|]. intros _. left. by eexists.
      * split; [intros [?|?]; auto|]. intros [?|[?|?]]; [by left| |by right]. by subst.
Qed.

(** X14.  [get_qid] (lines 40-41) on the query map that
    [download_if_missing] builds: the query map is keyed by the raw
    docstrings of the corpus, so a raw docstring of some document gets a
    decimal query id, and every other text gets the integer [-1]. *)
Theorem get_qid_known_queries (corpus : string → list Json) (query : string) :
  ((query ∈ docstring_raw <$> all_docs corpus) ∧
   (∃ n : nat, get_qid (out_query_map (download_if_missing corpus)) query = QidStr (pretty n))) ∨
  ((query ∉ docstring_raw <$> all_docs corpus) ∧
   get_qid (out_query_map (download_if_missing corpus)) query = QidInt (-1)).
Proof.
  destruct (download_if_missing_stream corpus) as (f & _ & _ & Hm & Hq & _).
  set (st0 := {| query_map := ∅; qrel_file := []; topic_file := []; warnings := [] |}) in *.
  pose proof (foldl_process_doc_dom (all_docs corpus) (st0, []) query) as Hdom.
  pose proof (foldl_process_doc_numbered (all_docs corpus) (st0, [])) as [Hnum _].
  { split; [|constructor]. intros k v. cbn. by rewrite lookup_empty. }
  rewrite <- Hm in Hdom, Hnum. unfold get_qid.
  destruct (out_query_map (download_if_missing corpus) !! query) as [qid|] eqn:Hl.
  - left. split.
    + destruct (proj1 Hdom) as [Hl'|?]; [by eexists| |done].
      cbn in Hl'. rewrite lookup_empty in Hl'. by destruct Hl'.
    + destruct (Hnum _ _ Hl) as [n ->]. by exists n.
  - right. split; [|done]. intros Hin.
    destruct (proj2 Hdom) as [? ?]; [by right|done].
Qed.


Lemma process_doc_qrels_of_qids acc d :
  (∀ q, q ∈ acc.2 →
     ∃ docid, q +:+ " Q0 " +:+ docid +:+ " 1" +:+ String "010" "" ∈ qrel_file acc.1) →
  ∀ q, q ∈ (process_doc acc d).2 →
     ∃ docid, q +:+ " Q0 " +:+ docid +:+ " 1" +:+ String "010" ""
              ∈ qrel_file (process_doc acc d).1.
Proof.
  destruct acc as [st qids]. cbn [fst snd]. intros Hacc q. unfold process_doc.
  destruct (query_map st !! docstring_raw d); cbn [fst snd qrel_file].
  - intros Hq. destruct (Hacc q Hq) as [docid Hin]. exists docid.
    apply elem_of_app. by left.
  - intros [Hq| ->%list_elem_of_singleton]%elem_of_app.
    + destruct (Hacc q Hq) as [docid Hin]. exists docid. apply elem_of_app. by left.
    + eexists. apply elem_of_app. right. apply list_elem_of_singleton. reflexivity.
Qed.

(** X15.  Every query id of the fold file has a qrels line: an id is
    recorded for a set (line 119) only after the qrels line with that id
    was written (line 115). *)
Theorem fold_qids_have_qrels (corpus : string → list Json) f q :
  od_get (out_folds (download_if_missing corpus)) "s1" = Some f →
  q ∈ Rerank.train_qids f ++ Rerank.predict_dev f ++ Rerank.predict_test f →
  ∃ docid, q +:+ " Q0 " +:+ docid +:+ " 1" +:+ String "010" ""
           ∈ out_qrels (download_if_missing corpus).
Proof.
  destruct (download_if_missing_stream corpus) as (f' & -> & Hids & _ & -> & _).
  cbn. intros [= <-]. rewrite Hids.
  apply (foldl_process_doc_inv
    (λ acc, ∀ q, q ∈ acc.2 →
       ∃ docid, q +:+ " Q0 " +:+ docid +:+ " 1" +:+ String "010" "" ∈ qrel_file acc.1)).
  - intros acc d _. apply process_doc_qrels_of_qids.
  - cbn. by intros ? ?%elem_of_nil.
Qed.

Lemma process_doc_consecutive (K : list string) acc d :
  docstring_raw d ∈ K → code_raw d ∉ K →
  (∀ k, is_Some (query_map acc.1 !! k) → k ∈ K) ∧
  acc.2 = pretty <$> seq 0 (size (query_map acc.1)) →
  (∀ k, is_Some (query_map (process_doc acc d).1 !! k) → k ∈ K) ∧
  (process_doc acc d).2 = pretty <$> seq 0 (size (query_map (process_doc acc d).1)).
Proof.
  destruct acc as [st qids]. cbn [fst snd]. intros Hdoc Hcode [Hdom Hids].
  assert (query_map st !! code_raw d = None) as Hnone.
  { destruct (query_map st !! code_raw d) eqn:Hc; [|done].
    exfalso. apply Hcode, Hdom. eauto. }
  unfold process_doc. rewrite Hnone. cbn [default].
  destruct (query_map st !! docstring_raw d) eqn:Hd; cbn [fst snd query_map]; [done|].
  split.
  - intros k. rewrite lookup_insert. case_decide as Hk; [by subst|]. apply Hdom.
  - rewrite map_size_insert_None by done.
    rewrite seq_S, fmap_app, <- Hids. done.
Qed.

(** X16.  Where no document's raw code is the raw docstring of a
    document, the query ids are handed out consecutively from 0: the train,
    dev and test ids of the fold file, one after the other, are the decimal
    numbers [0, 1, ..., n-1] in order, [n] the size of the query map. *)
Theorem consecutive_qids_without_clash (corpus : string → list Json) f :
  (∀ d d', d ∈ all_docs corpus → d' ∈ all_docs corpus → code_raw d ≠ docstring_raw d') →
  od_get (out_folds (download_if_missing corpus)) "s1" = Some f →
  Rerank.train_qids f ++ Rerank.predict_dev f ++ Rerank.predict_test f
  = pretty <$> seq 0 (size (out_query_map (download_if_missing corpus))).
Proof.
  intros Hclash.
  destruct (download_if_missing_stream corpus) as (f' & -> & Hids & -> & _ & _).
  cbn. intros [= <-]. rewrite Hids.
  apply (foldl_process_doc_inv
    (λ acc, (∀ k, is_Some (query_map acc.1 !! k) → k ∈ docstring_raw <$> all_docs corpus) ∧
            acc.2 = pretty <$> seq 0 (size (query_map acc.1)))).
  - intros acc d Hd. apply process_doc_consecutive.
    + apply list_elem_of_fmap. eauto.
    + intros (d' & Heq & Hd')%list_elem_of_fmap. by apply (Hclash d d').
  - cbn. split; [|by rewrite map_size_empty].
    intros k. rewrite lookup_empty. by intros [? ?].
Qed.

(** X17.  Reading a set only appends: every entry of the query map is
    kept with its query id (a docstring keeps the id of its first
    occurrence, line 117), and the qrels lines, topics and warnings written
    before remain as a prefix. *)
Theorem process_set_extends (st : State) (lines : list Json) :
  query_map st ⊆ query_map (process_set st lines).1 ∧
  qrel_file st `prefix_of` qrel_file (process_set st lines).1 ∧
  topic_file st `prefix_of` topic_file (process_set st lines).1 ∧
  warnings st `prefix_of` warnings (process_set st lines).1.
Proof.
  unfold process_set.
  apply (foldl_process_doc_inv
    (λ acc, query_map st ⊆ query_map acc.1 ∧
            qrel_file st `prefix_of` qrel_file acc.1 ∧
            topic_file st `prefix_of` topic_file acc.1 ∧
            warnings st `prefix_of` warnings acc.1)); [|done].
  intros [st' qids] d _ (Hm & Hq & Ht & Hw). cbn [fst] in *. unfold process_doc.
  assert (warnings st `prefix_of`
          (if bool_decide (1024 ≤ length (str_split (docstring_final d)))%nat
           then warnings st' ++ [chunk_warning] else warnings st')) as Hw'.
  { case_bool_decide; [|done]. by apply prefix_app_r. }
  destruct (query_map st' !! docstring_raw d) eqn:Hd; cbn [fst query_map qrel_file topic_file warnings].
  - split_and!; try done. by apply prefix_app_r.
  - split_and!; try done; try by apply prefix_app_r.
    etrans; [exact Hm|]. by apply insert_subseteq.
Qed.
End download_facts.

Section challenge_facts.
Context {Ch : Challenge}.

Lemma foldl_challenge_line (lines : list string) : ∀ (k : nat) m t,
  (0 < k)%nat →
  let r := foldl challenge_line (m, t) (imap (λ i, pair (k + i)%nat) lines) in
  (∀ j, r.1 !! j = if decide (k ≤ j < k + length lines)%nat
                   then lines !! (j - k)%nat else m !! j) ∧
  r.2 = t ++ imap (λ i line, topic_to_trectxt_int (k + i) (strip line)) lines.
Proof.
  induction lines as [|l lines IH]; intros k m t Hk; cbn zeta.
  - cbn. split; [|by rewrite app_nil_r]. intros j. rewrite decide_False; [done|lia].
  - rewrite !imap_cons. cbn [foldl]. unfold challenge_line at 2 4.
    rewrite Nat.add_0_r. rewrite bool_decide_true by lia.
    assert (∀ A (f : nat → string → A),
      imap ((λ i, f (k + i)%nat) ∘ S) lines = imap (λ i, f (S k + i)%nat) lines) as Himap.
    { intros A f. apply imap_ext. intros i x _. cbn. f_equal. lia. }
    rewrite (Himap _ pair).
    rewrite (Himap _ (λ i line, topic_to_trectxt_int i (strip line))).
    destruct (IH (S k) (<[k := l]> m) (t ++ [topic_to_trectxt_int k (strip l)])) as [H1 H2]; [lia|].
    split.
    + intros j. rewrite H1. cbn [length].
      destruct (decide (j = k)) as [->|Hne].
      * rewrite decide_False by lia. rewrite decide_True by lia.
        rewrite lookup_insert_eq. by rewrite Nat.sub_diag.
      * rewrite lookup_insert_ne by done.
        destruct (decide (S k ≤ j < S k + length lines)%nat).
        -- rewrite decide_True by lia.
           replace (j - k)%nat with (S (j - S k)) by lia. done.
        -- rewrite decide_False by lia. done.
    + rewrite H2. by rewrite <- app_assoc.
Qed.

(** X18.  [CodeSearchNetChallenge.download_if_missing] (lines 168-176):
    the first line of the query file is never a query; every later line is
    stored unstripped under its line number, and the topics written are the
    stripped lines 1, 2, ... in order, each under its line number. *)
Theorem challenge_download_closed_form (query_file : list string) :
  (challenge_download query_file).1 !! 0%nat = None ∧
  (∀ qid, (0 < qid)%nat → (challenge_download query_file).1 !! qid = query_file !! qid) ∧
  (challenge_download query_file).2
  = imap (λ i line, topic_to_trectxt_int (S i) (strip line)) (tail query_file).
Proof.
  unfold challenge_download. destruct query_file as [|header lines]; [done|].
  rewrite imap_cons. cbn [foldl tail]. unfold challenge_line at 2 4 6.
  rewrite bool_decide_false by (intros H; by apply H).
  assert (imap (pair ∘ S) lines = imap (λ i, pair (1 + i)%nat) lines) as -> by done.
  destruct (foldl_challenge_line lines 1 ∅ []) as [H1 H2]; [lia|].
  split_and!.
  - rewrite H1. by rewrite decide_False by lia.
  - intros qid Hq. rewrite H1. destruct qid as [|j]; [lia|].
    replace (S j - 1)%nat with j by lia.
    change ((header :: lines) !! S j) with (lines !! j).
    destruct (decide _) as [|Hn]; [done|].
    rewrite lookup_empty. symmetry. apply lookup_ge_None. lia.
  - by rewrite H2.
Qed.

End challenge_facts.

(** C7 (amended) on the second line written for the example corpus. *)
Lemma qrels_lines_format_witness :
  ∃ (n : nat) docid rest,
    "0 Q0 u2 1" +:+ String "010" "" = pretty n +:+ " Q0 " +:+ docid +:+ " 1" +:+ String "010" "" ∧
    String.words ("0 Q0 u2 1" +:+ String "010" "") = pretty n :: "Q0" :: rest.
Proof.
  refine (qrels_lines_format (C := ex_collection) ex_corpus ("0 Q0 u2 1" +:+ String "010" "") _).
  apply (bool_decide_unpack _). vm_compute. exact I.
Defined.

(** C7 as stated fails: the second field of a written line is Q0, not 0. *)
Lemma qrels_second_field_Q0 :
  out_qrels (download_if_missing (C := ex_collection) ex_corpus)
    = ["0 Q0 u1 1" +:+ String "010" ""; "0 Q0 u2 1" +:+ String "010" ""] ∧
  ¬ (∀ line, line ∈ out_qrels (download_if_missing (C := ex_collection) ex_corpus) →
       String.words line !! 1%nat = Some "0").
Proof.
  split; [by vm_compute|].
  intros Hall. specialize (Hall ("0 Q0 u1 1" +:+ String "010" "")).
  discriminate Hall. left.
Qed.

(** C6, on a corpus where the raw code of a test document is the raw
    docstring of a train document: the test document takes the query id of
    that train docstring, so the train and test query ids of the written
    fold share the id 0.  The query map is keyed by docstring, and line 114
    looks the code up in it. *)
Lemma train_and_test_share_a_query :
  out_folds (download_if_missing (C := ex_collection) ex_corpus)
    = [("s1", {| Rerank.train_qids := ["0"];
                 Rerank.predict_dev := [];
                 Rerank.predict_test := ["0"] |})] ∧
  ¬ (∀ name f, (name, f) ∈ out_folds (download_if_missing (C := ex_collection) ex_corpus) →
       ∀ qid, qid ∈ Rerank.train_qids f → qid ∉ Rerank.predict_test f).
Proof.
  split; [by vm_compute|].
  intros Hall.
  apply (Hall "s1" {| Rerank.train_qids := ["0"]; Rerank.predict_dev := [];
                      Rerank.predict_test := ["0"] |} ltac:(left) "0"); left.
Qed.

Lemma fold_qids_have_qrels_witness :
  ∃ docid, "0" +:+ " Q0 " +:+ docid +:+ " 1" +:+ String "010" ""
           ∈ out_qrels (download_if_missing (C := ex_collection) ex_corpus).
Proof.
  refine (fold_qids_have_qrels (C := ex_collection) ex_corpus
            {| Rerank.train_qids := ["0"]; Rerank.predict_dev := []; Rerank.predict_test := ["0"] |}
            "0" eq_refl _).
  left.
Defined.

Lemma ex_corpus_plain_no_clash d d' :
  d ∈ all_docs (C := ex_collection) ex_corpus_plain →
  d' ∈ all_docs (C := ex_collection) ex_corpus_plain →
  code_raw d ≠ docstring_raw d'.
Proof.
  intros Hd Hd'.
  repeat (apply elem_of_cons in Hd as [->|Hd]); [..|by apply elem_of_nil in Hd];
  repeat (apply elem_of_cons in Hd' as [->|Hd']); try (by apply elem_of_nil in Hd');
  discriminate.
Defined.

Lemma consecutive_qids_without_clash_witness :
  ["0"; "1"] = pretty <$> seq 0 (size (out_query_map (download_if_missing (C := ex_collection) ex_corpus_plain))).
Proof.
  exact (consecutive_qids_without_clash (C := ex_collection) ex_corpus_plain
           {| Rerank.train_qids := ["0"]; Rerank.predict_dev := []; Rerank.predict_test := ["1"] |}
           ex_corpus_plain_no_clash eq_refl).
Defined.

End CodeSearchNetFacts.

(** ** The bag-of-words extractor *)

Module BagOfWordsFacts.
Import BagOfWords PyFacts.

(** The written-out float32 operations agree with IEEE 754 binary32 around
    the largest exactly representable run of integers. *)
Example f32_succ_binary32 :
  Forall (λ x, binary32_value (SFadd 24 128 (binary32 x) (binary32 1)) = Some (f32_succ x))
         (seqZ 0 2048 ++ seqZ (2 ^ 24 - 2048) 2049).
Proof. apply (bool_decide_unpack _). vm_compute. exact I. Qed.

Example f32_of_int_binary32 :
  Forall (λ n, binary32_value (binary32 n) = Some (f32_of_int n))
         (seqZ 0 1024 ++ seqZ (2 ^ 24 - 512) 4096 ++ seqZ (2 ^ 25 - 512) 4096
          ++ seqZ (2 ^ 40 - 512) 1024 ++ [2 ^ 70 + 2 ^ 46; 2 ^ 70 + 2 ^ 46 + 1;
               2 ^ 70 + 3 * 2 ^ 46; 2 ^ 127; 2 ^ 128 - 2 ^ 103 - 1])%Z.
Proof. apply (bool_decide_unpack _). vm_compute. exact I. Qed.

Lemma vsum_insert (v : list Z) i x y :
  v !! i = Some x → vsum (<[i := y]> v) = (vsum v - x + y)%Z.
Proof.
  revert i. induction v as [|z v IH]; intros [|i]; simpl; try done.
  - intros [= ->]. lia.
  - intros Hv. rewrite (IH _ Hv). lia.
Qed.

Lemma vsum_replicate_0 n : vsum (replicate n 0%Z) = 0%Z.
Proof. induction n as [|n IH]; simpl; [done|]. by rewrite IH. Qed.

Lemma occurrences_cons i t l :
  occurrences i (t :: l) = ((if decide (t = i) then 1 else 0) + occurrences i l)%nat.
Proof. unfold occurrences. rewrite filter_cons. by case_decide. Qed.

Lemma incr_all_sum (l : list nat) : ∀ v : list Z,
  Forall (λ t, t < length v)%nat l →
  (∀ i x, v !! i = Some x → (x + Z.of_nat (occurrences i l) ≤ 2 ^ 24)%Z) →
  ∃ v', incr_all v l = OK v' ∧ length v' = length v ∧
        vsum v' = (vsum v + Z.of_nat (length l))%Z.
Proof.
  induction l as [|t l IH]; intros v Hlt Hocc.
  - exists v. simpl. split_and!; [done..|lia].
  - apply Forall_cons in Hlt as [Ht Hlt].
    destruct (lookup_lt_is_Some_2 v t Ht) as [x Hx].
    pose proof (Hocc t x Hx) as Hxt. rewrite occurrences_cons, decide_True in Hxt by done.
    simpl. unfold array_incr. rewrite Hx. simpl.
    unfold f32_succ. rewrite bool_decide_true by lia.
    destruct (IH (<[t := (x + 1)%Z]> v)) as (v' & Hv' & Hlen & Hsum).
    + by rewrite length_insert.
    + intros i y. destruct (decide (i = t)) as [->|Hne].
      * rewrite list_lookup_insert_eq by done. intros [= <-]. lia.
      * rewrite list_lookup_insert_ne by done. intros Hy.
        specialize (Hocc i y Hy). rewrite occurrences_cons, decide_False in Hocc by done.
        simpl in Hocc. lia.
    + exists v'. split; [done|]. rewrite Hlen, Hsum, length_insert.
      rewrite (vsum_insert v t x) by done. simpl length. split; [done|lia].
Qed.

Lemma incr_all_replicate (n : nat) : ∀ (v : list Z) t x,
  v !! t = Some x → (0 ≤ x ≤ 2 ^ 24)%Z →
  incr_all v (replicate n t) = OK (<[t := Z.min (x + Z.of_nat n) (2 ^ 24)]> v).
Proof.
  induction n as [|n IH]; intros v t x Hx Hrange.
  - simpl. rewrite Z.add_0_r, Z.min_l by lia. by rewrite list_insert_id.
  - change (replicate (S n) t) with (t :: replicate n t).
    cbn [incr_all]. unfold array_incr. rewrite Hx. cbn [mbind res_bind].
    rewrite (IH _ t (f32_succ x)).
    + rewrite list_insert_insert_eq. f_equal. f_equal.
      unfold f32_succ. case_bool_decide; lia.
    + apply list_lookup_insert_eq. by eapply lookup_lt_Some.
    + unfold f32_succ. case_bool_decide; lia.
Qed.

Lemma incr_all_lookup (l : list nat) : ∀ v : list Z,
  Forall (λ t, t < length v)%nat l →
  Forall (λ x, 0 ≤ x ≤ 2 ^ 24)%Z v →
  ∃ v', incr_all v l = OK v' ∧ length v' = length v ∧
        ∀ i x, v !! i = Some x →
               v' !! i = Some (Z.min (x + Z.of_nat (occurrences i l)) (2 ^ 24)).
Proof.
  induction l as [|t l IH]; intros v Hlt Hb.
  - exists v. simpl. split_and!; [done..|]. intros i x Hx. rewrite Hx. f_equal.
    rewrite Forall_forall in Hb. pose proof (Hb x (list_elem_of_lookup_2 _ _ _ Hx)).
    unfold occurrences. cbn. lia.
  - apply Forall_cons in Hlt as [Ht Hlt].
    destruct (lookup_lt_is_Some_2 v t Ht) as [xt Hxt].
    assert (0 ≤ xt ≤ 2 ^ 24)%Z as Hxtb.
    { rewrite Forall_forall in Hb. apply Hb. by eapply list_elem_of_lookup_2. }
    simpl. unfold array_incr. rewrite Hxt. simpl.
    destruct (IH (<[t := f32_succ xt]> v)) as (v' & Hv' & Hlen & Hget).
    + by rewrite length_insert.
    + apply Forall_insert; [done|]. unfold f32_succ. case_bool_decide; lia.
    + exists v'. split; [done|]. rewrite Hlen, length_insert. split; [done|].
      intros i x Hx. rewrite occurrences_cons.
      destruct (decide (i = t)) as [->|Hne].
      * rewrite decide_True by done. rewrite Hxt in Hx. injection Hx as <-.
        rewrite (Hget t (f32_succ xt)) by (by rewrite list_lookup_insert_eq).
        f_equal. unfold f32_succ. case_bool_decide; lia.
      * rewrite decide_False by done.
        rewrite (Hget i x) by (by rewrite list_lookup_insert_ne). done.
Qed.

Lemma od_set_keys {V} (d : odict nat V) k v :
  od_keys (od_set d k v) = if bool_decide (k ∈ od_keys d) then od_keys d else od_keys d ++ [k].
Proof.
  induction d as [|[k' v'] d IH]; [done|]. cbn [od_set].
  destruct (decide (k = k')) as [->|Hne].
  - cbn. by rewrite bool_decide_true by left.
  - cbn. unfold od_keys in IH. rewrite IH.
    rewrite (bool_decide_ext (k ∈ k' :: d.*1) (k ∈ d.*1)).
    + by case_bool_decide.
    + rewrite elem_of_cons. split; [intros [?|?]; [contradiction|assumption] | by right].
Qed.

Lemma od_set_wf {V} (d : odict nat V) k v : od_wf d → od_wf (od_set d k v).
Proof.
  unfold od_wf. rewrite od_set_keys. case_bool_decide as Hk; [done|].
  intros Hd. apply NoDup_app. split_and!; [done| |apply NoDup_singleton].
  intros x Hx ->%list_elem_of_singleton. done.
Qed.

Lemma Counter_from (toks : list nat) : ∀ (c : odict nat Z) t,
  od_wf c →
  let c' := foldl (λ c t, od_set c t (default 0 (od_get c t) + 1)%Z) c toks in
  od_wf c' ∧
  od_get c' t = if decide (occurrences t toks = 0%nat) then od_get c t
                else Some (default 0 (od_get c t) + Z.of_nat (occurrences t toks))%Z.
Proof.
  induction toks as [|a toks IH]; intros c t Hwf; cbn zeta.
  - done.
  - cbn [foldl].
    destruct (IH (od_set c a (default 0 (od_get c a) + 1)%Z) t) as [Hwf' Hget].
    { by apply od_set_wf. }
    split; [done|]. cbn zeta in Hget. rewrite Hget, od_get_set, occurrences_cons.
    destruct (decide (t = a)) as [->|Hne].
    + rewrite (decide_True (P := a = a)) by done.
      rewrite (decide_False (P := (1 + _ = 0)%nat)) by lia.
      destruct (decide (occurrences a toks = 0%nat)) as [->|_]; cbn; f_equal; lia.
    + rewrite (decide_False (P := a = t)) by done. cbn.
      by destruct (decide (occurrences t toks = 0%nat)).
Qed.

Lemma Counter_get (toks : list nat) t :
  od_wf (Counter toks) ∧
  od_get (Counter toks) t
  = if decide (occurrences t toks = 0%nat) then None
    else Some (Z.of_nat (occurrences t toks)).
Proof.
  destruct (Counter_from toks [] t) as [Hwf Hget]; [constructor|].
  split; [done|]. unfold Counter. rewrite Hget. by destruct (decide _).
Qed.

Lemma set_counts_lookup (c : odict nat Z) : ∀ v : list Z,
  od_wf c → Forall (λ t, t < length v)%nat (od_keys c) →
  ∃ v', set_counts v c = OK v' ∧ length v' = length v ∧
        ∀ i, v' !! i = match od_get c i with
                       | Some n => (λ _, f32_of_int n) <$> v !! i
                       | None => v !! i
                       end.
Proof.
  induction c as [|[t n] c IH]; intros v Hwf Hlt; simpl; [by exists v|].
  apply Forall_cons in Hlt as [Ht Hlt]. simpl in Ht.
  apply NoDup_cons in Hwf as [Hnt Hwf].
  unfold array_set. rewrite bool_decide_true by done. simpl.
  destruct (IH (<[t := f32_of_int n]> v)) as (v' & Hv' & Hlen & Hget).
  { done. } { by rewrite length_insert. }
  exists v'. split; [done|]. rewrite Hlen, length_insert. split; [done|].
  intros i. rewrite Hget. destruct (decide (i = t)) as [->|Hne].
  - rewrite od_get_notin by done. rewrite list_lookup_insert_eq by done.
    destruct (lookup_lt_is_Some_2 v t Ht) as [x ->]. done.
  - rewrite list_lookup_insert_ne by done. done.
Qed.

Lemma f32_of_int_small (n : Z) : (0 ≤ n ≤ 2 ^ 24)%Z → f32_of_int n = n.
Proof.
  intros Hn. unfold f32_of_int.
  destruct (decide (n = 2 ^ 24)%Z) as [->|Hne]; [by vm_compute|].
  rewrite bool_decide_true; [done|].
  destruct (decide (n = 0)%Z) as [->|Hn0]; [by vm_compute|].
  assert (Z.log2 n < 24)%Z; [|lia]. apply Z.log2_lt_pow2; lia.
Qed.

Lemma length_substring (s : string) : ∀ n m,
  (n + m ≤ String.length s)%nat → String.length (substring n m s) = m.
Proof.
  induction s as [|c s IH]; intros [|n] [|m] Hlen; cbn in *; try lia; try done.
  - f_equal. apply IH. lia.
  - apply IH. lia.
  - apply IH. lia.
Qed.

Lemma length_append (s1 s2 : string) :
  String.length (s1 +:+ s2) = (String.length s1 + String.length s2)%nat.
Proof.
  induction s1 as [|c s1 IH]; [done|].
  change (String c s1 +:+ s2) with (String c (s1 +:+ s2)). cbn. by rewrite IH.
Qed.

(** X21.  [get_trigrams_for_toks] (lines 60-61): every trigram has
    exactly three characters, a term of [n] characters gives [n] of them
    (an empty term none), and the trigrams of a list are those of its terms
    in order. *)
Theorem trigrams_shape (toks_list : list string) :
  Forall (λ trigram, String.length trigram = 3%nat) (get_trigrams_for_toks toks_list) ∧
  length (get_trigrams_for_toks toks_list) = sum_list (String.length <$> toks_list) ∧
  (∀ more, get_trigrams_for_toks (toks_list ++ more)
           = get_trigrams_for_toks toks_list ++ get_trigrams_for_toks more).
Proof.
  unfold get_trigrams_for_toks. split_and!.
  - apply Forall_forall. intros g Hg.
    apply list_elem_of_bind in Hg as (tok & Hg & _).
    apply list_elem_of_fmap in Hg as (i & -> & Hi).
    apply elem_of_seq in Hi. apply length_substring.
    rewrite !length_append. cbn. lia.
  - induction toks_list as [|tok toks IH]; [done|].
    cbn. rewrite length_app, length_fmap, length_seq. f_equal. exact IH.
  - intros more. apply bind_app.
Qed.

Lemma itos_of_app (stoi : odict string nat) : ∀ acc : odict nat string,
  NoDup (od_keys acc ++ od_values stoi) →
  foldl (λ itos si, od_set itos si.2 si.1) acc stoi
  = acc ++ ((λ si, (si.2, si.1)) <$> stoi).
Proof.
  induction stoi as [|[tok i] stoi IH]; intros acc Hnd; cbn [foldl fmap list_fmap].
  - by rewrite app_nil_r.
  - cbn in Hnd. assert (i ∉ od_keys acc) as Hi.
    { apply NoDup_app in Hnd as (_ & Hdis & _). intros Hin. apply (Hdis _ Hin). left. }
    cbn [fst snd]. rewrite od_set_notin by done. rewrite IH.
    + by rewrite <- app_assoc.
    + rewrite od_keys_app. cbn. by rewrite <- app_assoc.
Qed.

(** X24.  [itos] (lines 69, 78) inverts [stoi]: when no two terms share
    an index, [itos] lists the swapped entries of [stoi] in its order, has
    as many entries, and [itos[i] = tok] exactly when [stoi[tok] = i]. *)
Theorem itos_inverts_stoi (stoi : odict string nat) :
  od_wf stoi → NoDup (od_values stoi) →
  itos_of stoi = (λ si, (si.2, si.1)) <$> stoi ∧
  length (itos_of stoi) = length stoi ∧
  ∀ tok i, od_get (itos_of stoi) i = Some tok ↔ od_get stoi tok = Some i.
Proof.
  intros Hwf Hnd.
  assert (itos_of stoi = (λ si, (si.2, si.1)) <$> stoi) as Heq.
  { unfold itos_of. by rewrite itos_of_app. }
  split; [done|]. rewrite Heq. split; [by rewrite length_fmap|].
  intros tok i. rewrite !od_get_Some; [|done|].
  - rewrite list_elem_of_fmap. split.
    + intros ([t j] & [= -> ->] & Hin). done.
    + intros Hin. by exists (tok, i).
  - unfold od_wf, od_keys. rewrite <- list_fmap_compose.
    assert ((fst ∘ (λ si : string * nat, (si.2, si.1))) <$> stoi = od_values stoi) as ->; [|done].
    unfold od_values. by apply list_fmap_ext.
Qed.

Section extractor_facts.
Context {F : Type} {E : Extractor F}.

Lemma stoi_index_lt tok : stoi_wf → (default 0%nat (stoi !! tok) < size stoi)%nat.
Proof.
  intros [Hpad Hlt]. destruct (stoi !! tok) as [i|] eqn:Hi; simpl; [by eapply Hlt|].
  by apply (Hlt pad_tok pad).
Qed.

Lemma tok2vec_lt toks : stoi_wf → Forall (λ t, t < size stoi)%nat (_tok2vec toks).
Proof.
  intros Hwf. unfold _tok2vec. apply Forall_fmap, Forall_forall.
  intros tok _. by apply stoi_index_lt.
Qed.

Lemma incr_all_total (l : list nat) : ∀ v : list Z,
  Forall (λ t, t < length v)%nat l →
  ∃ v', incr_all v l = OK v' ∧ length v' = length v.
Proof.
  induction l as [|t l IH]; intros v Hlt; simpl; [by exists v|].
  apply Forall_cons in Hlt as [Ht Hlt].
  destruct (lookup_lt_is_Some_2 v t Ht) as [x Hx].
  unfold array_incr. rewrite Hx. simpl.
  destruct (IH (<[t := f32_succ x]> v)) as (v' & Hv' & Hlen).
  { by rewrite length_insert. }
  exists v'. split; [done|]. by rewrite Hlen, length_insert.
Qed.

Lemma set_counts_total (c : odict nat Z) : ∀ v : list Z,
  Forall (λ t, t < length v)%nat (od_keys c) →
  ∃ v', set_counts v c = OK v' ∧ length v' = length v.
Proof.
  induction c as [|[t n] c IH]; intros v Hlt; simpl; [by exists v|].
  apply Forall_cons in Hlt as [Ht Hlt]. simpl in Ht.
  unfold array_set. rewrite bool_decide_true by done. simpl.
  destruct (IH (<[t := f32_of_int n]> v)) as (v' & Hv' & Hlen).
  { by rewrite length_insert. }
  exists v'. split; [done|]. by rewrite Hlen, length_insert.
Qed.

Lemma Counter_keys (toks : list nat) t : t ∈ od_keys (Counter toks) → t ∈ toks.
Proof.
  unfold Counter.
  assert (∀ acc : odict nat Z,
            t ∈ od_keys (foldl (λ c t, od_set c t (default 0 (od_get c t) + 1)%Z) acc toks) →
            t ∈ od_keys acc ∨ t ∈ toks) as Hgen.
  { induction toks as [|t' toks IH]; intros acc; simpl; [by left|].
    intros [Hin|Hin]%IH; [|by right; right].
    apply od_keys_set in Hin as [->|Hin]; [right; left|by left]. }
  intros [Hin|Hin]%Hgen; [|done]. by apply elem_of_nil in Hin.
Qed.

Lemma set_idf_total (toks : list string) : ∀ v : list F,
  stoi_wf → length v = size stoi →
  ∃ v', set_idf v toks = OK v' ∧ length v' = size stoi.
Proof.
  induction toks as [|tok toks IH]; intros v Hwf Hlen; simpl; [by exists v|].
  unfold array_set. rewrite bool_decide_true by (rewrite Hlen; by apply stoi_index_lt).
  simpl. apply IH; [done|]. by rewrite length_insert.
Qed.

Lemma transform_txt_total term_list maxlen :
  stoi_wf → datamode cfg = "unigram" ∨ datamode cfg = "trigram" →
  ∃ v, transform_txt term_list maxlen = OK v ∧ length v = size stoi.
Proof.
  intros Hwf Hmode. unfold transform_txt.
  destruct (decide (datamode cfg = "unigram")) as [Hu|Hu].
  - destruct (incr_all_total (_tok2vec term_list) (replicate (size stoi) 0%Z))
      as (v & Hv & Hlen).
    { rewrite length_replicate. by apply tok2vec_lt. }
    exists v. split; [done|]. by rewrite Hlen, length_replicate.
  - destruct Hmode as [?|Ht]; [done|]. rewrite decide_True by done.
    set (toks := (λ trigram, default 0%nat (stoi !! trigram)) <$> get_trigrams_for_toks term_list).
    destruct (set_counts_total (Counter toks) (replicate (size stoi) 0%Z)) as (v & Hv & Hlen).
    { rewrite length_replicate. apply Forall_forall. intros t Ht'%Counter_keys.
      apply list_elem_of_fmap in Ht' as (tok & -> & _). by apply stoi_index_lt. }
    exists v. split; [done|]. by rewrite Hlen, length_replicate.
Qed.

(** C9 (amended).  For a call whose query resolves (a query text without a
    query id, or a query id recorded in [qid2toks] without a text): when
    the positive document has no tokens in [docid2toks], [id2vec] returns
    None.  On an extractor built by [create] (a valid datamode, vocabulary
    indices within the vocabulary) and with tokens for the positive
    document: when a negative document is given that has no tokens,
    [id2vec] returns None; otherwise it returns a mapping with the keys
    qid, posdocid, query, posdoc and query_idf, followed by negdocid and
    negdoc when a negative document id was given. *)
Theorem id2vec_missing_doc posdoc_id negdoc_id qid query :
  query_resolves qid query →
  (has_toks posdoc_id = false → id2vec posdoc_id negdoc_id qid query = OK None) ∧
  (stoi_wf → datamode cfg = "unigram" ∨ datamode cfg = "trigram" →
   has_toks posdoc_id = true →
   if from_option has_toks true negdoc_id
   then ∃ transformed,
          id2vec posdoc_id negdoc_id qid query = OK (Some transformed) ∧
          od_keys transformed =
            ["qid"; "posdocid"; "query"; "posdoc"; "query_idf"]
            ++ match negdoc_id with Some _ => ["negdocid"; "negdoc"] | None => [] end
   else id2vec posdoc_id negdoc_id qid query = OK None).
Proof.
  intros Hq. unfold id2vec.
  assert (∃ query_toks,
    match query with
    | Some text =>
        match qid with
        | None => OK (tokenize text)
        | Some _ =>
            Raise (RuntimeError "received both a qid and query, but only one can be passed")
        end
    | None =>
        match qid ≫= (qid2toks !!.) with
        | Some toks => OK toks
        | None => Raise (KeyError (default "None" qid))
        end
    end = OK query_toks) as [query_toks ->].
  { unfold query_resolves in Hq. destruct query as [text|], qid as [k|]; try done.
    - eauto.
    - destruct Hq as [toks Hk]. simpl. rewrite Hk. eauto. }
  cbn [mbind res_bind]. unfold has_toks.
  destruct (docid2toks !! posdoc_id) as [[|tok toks]|] eqn:Hpos; [done| |done].
  split; [done|]. intros Hwf Hmode _.
  destruct (transform_txt_total query_toks (maxqlen cfg) Hwf Hmode) as (vq & -> & _).
  destruct (set_idf_total query_toks (replicate (size stoi) idf_zero) Hwf
              (length_replicate _ _)) as (vi & -> & _).
  destruct (transform_txt_total (tok :: toks) (maxdoclen cfg) Hwf Hmode) as (vp & -> & _).
  cbn [mbind res_bind].
  destruct negdoc_id as [negdoc_id|]; cbn [from_option].
  - destruct (docid2toks !! negdoc_id) as [[|ntok ntoks]|] eqn:Hneg; [done| |done].
    destruct (transform_txt_total (ntok :: ntoks) (maxdoclen cfg) Hwf Hmode) as (vn & -> & _).
    cbn [mbind res_bind]. eexists. split; reflexivity.
  - eexists. split; reflexivity.
Qed.

(** C10 (amended).  In unigram datamode, on a vocabulary built by
    [create], [transform_txt] returns a vector of length [len(stoi)], the
    same for every [maxlen]; terms outside the vocabulary count under the
    pad index 0, and the components sum to [len(term_list)] for every term
    list that hits no vocabulary index more than 2^24 times (a float32
    component stops growing there). *)
Theorem transform_txt_unigram term_list maxlen :
  stoi_wf → datamode cfg = "unigram" →
  ∃ v, transform_txt term_list maxlen = OK v ∧
       length v = size stoi ∧
       (∀ maxlen', transform_txt term_list maxlen' = OK v) ∧
       ((∀ i, (Z.of_nat (occurrences i (_tok2vec term_list)) ≤ 2 ^ 24)%Z) →
        vsum v = Z.of_nat (length term_list)).
Proof.
  intros Hwf Hmode. unfold transform_txt. rewrite decide_True by done.
  destruct (incr_all_total (_tok2vec term_list) (replicate (size stoi) 0%Z))
    as (v & Hv & Hlen).
  { rewrite length_replicate. by apply tok2vec_lt. }
  exists v. split_and!; [done| |done|].
  - by rewrite Hlen, length_replicate.
  - intros Hocc.
    destruct (incr_all_sum (_tok2vec term_list) (replicate (size stoi) 0%Z))
      as (v' & Hv' & _ & Hsum).
    + rewrite length_replicate. by apply tok2vec_lt.
    + intros i x [-> _]%lookup_replicate. apply Hocc.
    + rewrite Hv in Hv'. injection Hv' as <-.
      rewrite Hsum, vsum_replicate_0. unfold _tok2vec. by rewrite length_fmap.
Qed.

(** X19.  Unigram mode, component by component: on a vocabulary built by
    [create], component [i] of the vector is the number of terms counted
    under index [i] (terms outside the vocabulary under the pad index 0),
    capped at 2^24, where a float32 component stops growing. *)
Theorem transform_txt_unigram_counts term_list maxlen :
  stoi_wf → datamode cfg = "unigram" →
  ∃ v, transform_txt term_list maxlen = OK v ∧
       ∀ i, (i < size stoi)%nat →
            v !! i = Some (Z.min (Z.of_nat (occurrences i (_tok2vec term_list))) (2 ^ 24)).
Proof.
  intros Hwf Hmode. unfold transform_txt. rewrite decide_True by done.
  destruct (incr_all_lookup (_tok2vec term_list) (replicate (size stoi) 0%Z))
    as (v & Hv & Hlen & Hget).
  { rewrite length_replicate. by apply tok2vec_lt. }
  { apply Forall_replicate. lia. }
  exists v. split; [done|]. intros i Hi.
  rewrite (Hget i 0%Z) by (by apply lookup_replicate_2). done.
Qed.

(** X20.  Trigram mode (lines 160-165): on a vocabulary built by
    [create], the vector has length [len(stoi)] and component [i] is the
    float32 nearest to the number of character trigrams of the terms that
    are counted under index [i]; it is that number itself up to 2^24.  The
    count is assigned once, not accumulated, so it is rounded rather than
    capped. *)
Theorem transform_txt_trigram_counts term_list maxlen :
  stoi_wf → datamode cfg = "trigram" →
  ∃ v, transform_txt term_list maxlen = OK v ∧
       length v = size stoi ∧
       ∀ i, (i < size stoi)%nat →
         let n := Z.of_nat (occurrences i (_tok2vec (get_trigrams_for_toks term_list))) in
         v !! i = Some (f32_of_int n) ∧ ((n ≤ 2 ^ 24)%Z → v !! i = Some n).
Proof.
  intros Hwf Hmode. unfold transform_txt.
  rewrite decide_False by (rewrite Hmode; discriminate).
  rewrite decide_True by done.
  fold (_tok2vec (get_trigrams_for_toks term_list)).
  set (toks := _tok2vec (get_trigrams_for_toks term_list)).
  destruct (set_counts_lookup (Counter toks) (replicate (size stoi) 0%Z))
    as (v & Hv & Hlen & Hget).
  { apply (Counter_get toks 0). }
  { rewrite length_replicate. apply Forall_forall. intros t Ht'%Counter_keys.
    revert t Ht'. apply Forall_forall. by apply tok2vec_lt. }
  exists v. split; [done|]. rewrite Hlen, length_replicate. split; [done|].
  intros i Hi. cbn zeta.
  assert (v !! i = Some (f32_of_int (Z.of_nat (occurrences i toks)))) as Hi'.
  { rewrite Hget. destruct (Counter_get toks i) as [_ ->].
    rewrite lookup_replicate_2 by done.
    destruct (decide (occurrences i toks = 0%nat)) as [->|]; done. }
  split; [done|]. intros Hn. rewrite Hi'. f_equal. apply f32_of_int_small. lia.
Qed.

Lemma set_idf_lookup (toks : list string) : ∀ v v' : list F,
  set_idf v toks = OK v' →
  length v' = length v ∧
  ∀ i, v' !! i = match last (filter (λ tok, index_of tok = i) toks) with
                 | Some tok => (λ _, idf tok) <$> v !! i
                 | None => v !! i
                 end.
Proof.
  induction toks as [|tok toks IH]; intros v v' Hset.
  - cbn in Hset. by injection Hset as <-.
  - cbn [set_idf] in Hset. unfold array_set in Hset.
    fold (index_of tok) in Hset.
    case_bool_decide as Hlt; [|done].
    change (OK ?x ≫= ?k) with (k x) in Hset. cbn beta in Hset.
    destruct (IH _ _ Hset) as [Hlen Hget]. rewrite length_insert in Hlen.
    split; [done|]. intros i. rewrite Hget.
    rewrite (filter_cons (λ tok, index_of tok = i)).
    destruct (decide (index_of tok = i)) as [<-|Hne].
    + rewrite list_lookup_insert_eq by done.
      destruct (lookup_lt_is_Some_2 v _ Hlt) as [x ->].
      change (tok :: ?l) with ([tok] ++ l). rewrite last_app.
      by destruct (last (filter _ toks)).
    + by rewrite list_lookup_insert_ne.
Qed.

(** X22.  What [id2vec] returns (lines 129-141): whenever it returns a
    mapping, the query resolved and the positive document has tokens; the
    mapping echoes [qid] and [posdocid], holds the bags of the query and of
    the document, and its [query_idf] vector has length [len(stoi)] with,
    at index [i], the idf of the last query token counted under [i] and the
    float32 zero where there is none.  Query tokens outside the vocabulary
    write their idf to the pad index 0. *)
Theorem id2vec_contents posdoc_id negdoc_id qid query transformed :
  id2vec posdoc_id negdoc_id qid query = OK (Some transformed) →
  ∃ query_toks posdoc_toks tq tp v,
    query_toks_of qid query = Some query_toks ∧
    docid2toks !! posdoc_id = Some posdoc_toks ∧
    transform_txt query_toks (maxqlen cfg) = OK tq ∧
    transform_txt posdoc_toks (maxdoclen cfg) = OK tp ∧
    od_get transformed "qid" = Some (VQid qid) ∧
    od_get transformed "posdocid" = Some (VDocid posdoc_id) ∧
    od_get transformed "query" = Some (VBag tq) ∧
    od_get transformed "posdoc" = Some (VBag tp) ∧
    od_get transformed "query_idf" = Some (VIdf v) ∧
    length v = size stoi ∧
    ∀ i, (i < size stoi)%nat →
      v !! i = Some (from_option idf idf_zero
                       (last (filter (λ tok, index_of tok = i) query_toks))).
Proof.
  unfold id2vec, query_toks_of. intros H.
  assert (∃ query_toks,
    match query with
    | Some text => match qid with None => Some (tokenize text) | Some _ => None end
    | None => match qid with Some k => qid2toks !! k | None => None end
    end = Some query_toks ∧
    match docid2toks !! posdoc_id with
    | None | Some [] => OK None
    | Some posdoc_toks =>
      transformed_query ← transform_txt query_toks (maxqlen cfg);
      query_idf_vector ← set_idf (replicate (size stoi) idf_zero) query_toks;
      posdoc ← transform_txt posdoc_toks (maxdoclen cfg);
      let transformed :=
        [("qid", VQid qid); ("posdocid", VDocid posdoc_id);
         ("query", VBag transformed_query); ("posdoc", VBag posdoc);
         ("query_idf", VIdf query_idf_vector)] in
      match negdoc_id with
      | None => OK (Some transformed)
      | Some negdoc_id =>
          match docid2toks !! negdoc_id with
          | None | Some [] => OK None
          | Some negdoc_toks =>
              let transformed := od_set transformed "negdocid" (VDocid negdoc_id) in
              negdoc ← transform_txt negdoc_toks (maxdoclen cfg);
              OK (Some (od_set transformed "negdoc" (VBag negdoc)))
          end
      end
    end = OK (Some transformed)) as (query_toks & Hq & H').
  { destruct query as [text|], qid as [k|]; cbn in H; try done.
    - by exists (tokenize text).
    - destruct (qid2toks !! k) as [toks|]; [|done]. by exists toks. }
  clear H. exists query_toks.
  destruct (docid2toks !! posdoc_id) as [[|t posdoc_toks]|] eqn:Hpos; [done| |done].
  exists (t :: posdoc_toks).
  destruct (transform_txt query_toks (maxqlen cfg)) as [tq|] eqn:Htq; [|done].
  change (OK ?x ≫= ?k) with (k x) in H'. cbn beta in H'.
  destruct (set_idf (replicate (size stoi) idf_zero) query_toks) as [v|] eqn:Hv; [|done].
  change (OK ?x ≫= ?k) with (k x) in H'. cbn beta in H'.
  destruct (transform_txt (t :: posdoc_toks) (maxdoclen cfg)) as [tp|] eqn:Htp; [|done].
  change (OK ?x ≫= ?k) with (k x) in H'. cbn beta zeta in H'.
  exists tq, tp, v.
  destruct (set_idf_lookup _ _ _ Hv) as [Hlen Hget]. rewrite length_replicate in Hlen.
  assert (∀ i, (i < size stoi)%nat →
      v !! i = Some (from_option idf idf_zero
                       (last (filter (λ tok, index_of tok = i) query_toks)))) as Hidf.
  { intros i Hi. rewrite Hget, lookup_replicate_2 by done.
    by destruct (last _). }
  destruct negdoc_id as [negdoc_id|].
  - destruct (docid2toks !! negdoc_id) as [[|t' negdoc_toks]|]; [done| |done].
    destruct (transform_txt (t' :: negdoc_toks) (maxdoclen cfg)) as [tn|]; [|done].
    change (OK ?x ≫= ?k) with (k x) in H'. cbn beta in H'.
    injection H' as <-. split_and!; done.
  - injection H' as <-. split_and!; done.
Qed.

(** X23.  The outcomes of [id2vec] on a vocabulary built by [create]: it
    returns, or raises [RuntimeError] when both a query id and a text are
    given, or [KeyError] when no text is given and the query id is not in
    [qid2toks], or [Exception] for an unknown datamode.  No array index is
    ever out of range. *)
Theorem id2vec_outcomes posdoc_id negdoc_id qid query :
  stoi_wf →
  (∃ r, id2vec posdoc_id negdoc_id qid query = OK r) ∨
  (is_Some qid ∧ is_Some query ∧
   id2vec posdoc_id negdoc_id qid query
   = Raise (RuntimeError "received both a qid and query, but only one can be passed")) ∨
  (query = None ∧ qid ≫= (qid2toks !!.) = None ∧
   id2vec posdoc_id negdoc_id qid query = Raise (KeyError (default "None" qid))) ∨
  (datamode cfg ≠ "unigram" ∧ datamode cfg ≠ "trigram" ∧
   id2vec posdoc_id negdoc_id qid query = Raise (Exception "Unknown datamode")).
Proof.
  intros Hwf. unfold id2vec.
  destruct query as [text|].
  { destruct qid as [k|]; [right; left; by split_and!|].
    change (OK ?x ≫= ?k) with (k x). cbn beta.
    destruct (docid2toks !! posdoc_id) as [[|t posdoc_toks]|];
      [left; by eexists| |left; by eexists].
    destruct (decide (datamode cfg = "unigram" ∨ datamode cfg = "trigram")) as [Hm|Hm].
    - left.
      destruct (transform_txt_total (tokenize text) (maxqlen cfg) Hwf Hm) as (tq & -> & _).
      change (OK ?x ≫= ?k) with (k x). cbn beta.
      destruct (set_idf_total (tokenize text) (replicate (size stoi) idf_zero) Hwf)
        as (v & -> & _); [by rewrite length_replicate|].
      change (OK ?x ≫= ?k) with (k x). cbn beta.
      destruct (transform_txt_total (t :: posdoc_toks) (maxdoclen cfg) Hwf Hm) as (tp & -> & _).
      change (OK ?x ≫= ?k) with (k x). cbn beta zeta.
      destruct negdoc_id as [negdoc_id|]; [|by eexists].
      destruct (docid2toks !! negdoc_id) as [[|t' negdoc_toks]|];
        [by eexists| |by eexists].
      destruct (transform_txt_total (t' :: negdoc_toks) (maxdoclen cfg) Hwf Hm) as (tn & -> & _).
      by eexists.
    - right. right. right.
      assert (datamode cfg ≠ "unigram" ∧ datamode cfg ≠ "trigram") as [Hu Ht].
      { split; intros ?; apply Hm; auto. }
      split_and!; [done..|]. unfold transform_txt.
      by rewrite !decide_False by done. }
  destruct (qid ≫= (qid2toks !!.)) as [query_toks|] eqn:Hq;
    [|right; right; left; by split_and!].
  change (OK ?x ≫= ?k) with (k x). cbn beta.
  destruct (docid2toks !! posdoc_id) as [[|t posdoc_toks]|];
    [left; by eexists| |left; by eexists].
  destruct (decide (datamode cfg = "unigram" ∨ datamode cfg = "trigram")) as [Hm|Hm].
  - left.
    destruct (transform_txt_total query_toks (maxqlen cfg) Hwf Hm) as (tq & -> & _).
    change (OK ?x ≫= ?k) with (k x). cbn beta.
    destruct (set_idf_total query_toks (replicate (size stoi) idf_zero) Hwf)
      as (v & -> & _); [by rewrite length_replicate|].
    change (OK ?x ≫= ?k) with (k x). cbn beta.
    destruct (transform_txt_total (t :: posdoc_toks) (maxdoclen cfg) Hwf Hm) as (tp & -> & _).
    change (OK ?x ≫= ?k) with (k x). cbn beta zeta.
    destruct negdoc_id as [negdoc_id|]; [|by eexists].
    destruct (docid2toks !! negdoc_id) as [[|t' negdoc_toks]|];
      [by eexists| |by eexists].
    destruct (transform_txt_total (t' :: negdoc_toks) (maxdoclen cfg) Hwf Hm) as (tn & -> & _).
    by eexists.
  - right. right. right.
    assert (datamode cfg ≠ "unigram" ∧ datamode cfg ≠ "trigram") as [Hu Ht].
    { split; intros ?; apply Hm; auto. }
    split_and!; [done..|]. unfold transform_txt.
    by rewrite !decide_False by done.
Qed.
End extractor_facts.

(** *** The example extractor *)

Lemma ex_stoi_wf mode : stoi_wf (E := ex_extractor mode).
Proof.
  split; [reflexivity|]. intros tok i. cbn [stoi ex_extractor].
  change (size _) with 4%nat.
  rewrite !lookup_insert, lookup_singleton.
  repeat case_decide; intros [= <-]; lia.
Defined.

Lemma occurrences_tok2vec_le {F} {E : Extractor F} i (toks : list string) :
  (occurrences i (_tok2vec toks) ≤ length toks)%nat.
Proof.
  unfold occurrences. etrans; [apply length_filter|].
  unfold _tok2vec. by rewrite length_fmap.
Qed.

(** C9 (amended) for a positive document without tokens, and for a
    negative document without tokens. *)
Lemma id2vec_missing_doc_witness :
  id2vec (E := ex_extractor "unigram") "d2" (Some "d9") (Some "q1") None = OK None ∧
  id2vec (E := ex_extractor "unigram") "d9" (Some "d1") (Some "q1") None = OK None ∧
  id2vec (E := ex_extractor "unigram") "d1" (Some "d3") (Some "q1") None = OK None.
Proof.
  split_and!.
  - exact (proj2 (id2vec_missing_doc (E := ex_extractor "unigram")
                    "d2" (Some "d9") (Some "q1") None (mk_is_Some _ _ eq_refl))
             (ex_stoi_wf "unigram") (or_introl eq_refl) eq_refl).
  - exact (proj1 (id2vec_missing_doc (E := ex_extractor "unigram")
                    "d9" (Some "d1") (Some "q1") None (mk_is_Some _ _ eq_refl)) eq_refl).
  - exact (proj2 (id2vec_missing_doc (E := ex_extractor "unigram")
                    "d1" (Some "d3") (Some "q1") None (mk_is_Some _ _ eq_refl))
             (ex_stoi_wf "unigram") (or_introl eq_refl) eq_refl).
Defined.

(** C9 as stated fails: the positive document d9 has no tokens, and the
    call raises, with both a query id and a text, or with an unknown query
    id. *)
Lemma id2vec_raises_on_qid_and_query :
  has_toks (E := ex_extractor "unigram") "d9" = false ∧
  id2vec (E := ex_extractor "unigram") "d9" None (Some "q1") (Some "dog")
    = Raise (RuntimeError "received both a qid and query, but only one can be passed") ∧
  id2vec (E := ex_extractor "unigram") "d9" None (Some "q7") None = Raise (KeyError "q7") ∧
  ¬ (∀ posdoc_id negdoc_id qid query,
       has_toks (E := ex_extractor "unigram") posdoc_id = false →
       id2vec (E := ex_extractor "unigram") posdoc_id negdoc_id qid query = OK None).
Proof.
  split_and!; [reflexivity..|].
  intros Hall. specialize (Hall "d9" None (Some "q1") (Some "dog") eq_refl).
  discriminate Hall.
Qed.

(** C10 (amended) on three terms, one of them outside the vocabulary. *)
Lemma transform_txt_unigram_witness :
  ∃ v, transform_txt (E := ex_extractor "unigram") ["cat"; "emu"; "cat"] 800 = OK v ∧
       length v = 4%nat ∧
       (∀ maxlen', transform_txt (E := ex_extractor "unigram") ["cat"; "emu"; "cat"] maxlen'
                   = OK v) ∧
       vsum v = 3%Z.
Proof.
  destruct (transform_txt_unigram (E := ex_extractor "unigram") ["cat"; "emu"; "cat"] 800
              (ex_stoi_wf "unigram") eq_refl) as (v & Hv & Hlen & Hmax & Hsum).
  exists v. split_and!; [exact Hv|exact Hlen|exact Hmax|].
  apply Hsum. intros i.
  pose proof (occurrences_tok2vec_le (E := ex_extractor "unigram") i ["cat"; "emu"; "cat"])
    as Hle.
  cbn [length] in Hle. lia.
Defined.

(** C10 as stated fails on 2^24 + 1 terms outside the vocabulary: the
    component of the pad index stays at 2^24. *)
Lemma transform_txt_saturates :
  transform_txt (E := ex_extractor "unigram") (replicate (Z.to_nat 16777217) "emu") 800
    = OK [16777216; 0; 0; 0]%Z ∧
  ¬ (∀ term_list maxlen v,
       transform_txt (E := ex_extractor "unigram") term_list maxlen = OK v →
       vsum v = Z.of_nat (length term_list)).
Proof.
  assert (transform_txt (E := ex_extractor "unigram")
            (replicate (Z.to_nat 16777217) "emu") 800 = OK [16777216; 0; 0; 0]%Z) as Hrun.
  { unfold transform_txt. rewrite decide_True by reflexivity.
    unfold _tok2vec. rewrite fmap_replicate.
    change (default 0%nat (stoi (Extractor := ex_extractor "unigram") !! "emu")) with 0%nat.
    change (replicate (size (stoi (Extractor := ex_extractor "unigram"))) 0%Z)
      with [0; 0; 0; 0]%Z.
    rewrite (incr_all_replicate _ _ 0%nat 0%Z); [|reflexivity|done].
    rewrite Z2Nat.id by done. reflexivity. }
  split; [exact Hrun|].
  intros Hall. specialize (Hall _ _ _ Hrun).
  rewrite length_replicate, Z2Nat.id in Hall by done.
  discriminate Hall.
Qed.

Lemma transform_txt_unigram_counts_witness :
  ∃ v, transform_txt (E := ex_extractor "unigram") ["cat"; "emu"; "cat"] 800 = OK v ∧
       ∀ i, (i < size (stoi (Extractor := ex_extractor "unigram")))%nat →
            v !! i = Some (Z.min (Z.of_nat (occurrences i
                             (_tok2vec (E := ex_extractor "unigram") ["cat"; "emu"; "cat"])))
                           (2 ^ 24)).
Proof.
  exact (transform_txt_unigram_counts (E := ex_extractor "unigram")
           ["cat"; "emu"; "cat"] 800 (ex_stoi_wf _) eq_refl).
Defined.

Lemma transform_txt_trigram_counts_witness :
  ∃ v, transform_txt (E := ex_extractor "trigram") ["do"] 800 = OK v ∧
       length v = size (stoi (Extractor := ex_extractor "trigram")) ∧
       ∀ i, (i < size (stoi (Extractor := ex_extractor "trigram")))%nat →
         let n := Z.of_nat (occurrences i
                    (_tok2vec (E := ex_extractor "trigram") (get_trigrams_for_toks ["do"]))) in
         v !! i = Some (f32_of_int n) ∧ ((n ≤ 2 ^ 24)%Z → v !! i = Some n).
Proof.
  exact (transform_txt_trigram_counts (E := ex_extractor "trigram")
           ["do"] 800 (ex_stoi_wf _) eq_refl).
Defined.

Lemma id2vec_contents_witness :
  ∃ query_toks posdoc_toks tq tp v,
    query_toks_of (E := ex_extractor "unigram") (Some "q1") None = Some query_toks ∧
    docid2toks (Extractor := ex_extractor "unigram") !! "d1" = Some posdoc_toks ∧
    transform_txt (E := ex_extractor "unigram") query_toks 4 = OK tq ∧
    transform_txt (E := ex_extractor "unigram") posdoc_toks 800 = OK tp ∧
    od_get [("qid", VQid (Some "q1")); ("posdocid", VDocid "d1");
            ("query", VBag [1; 1; 0; 0]%Z); ("posdoc", VBag [0; 1; 2; 0]%Z);
            ("query_idf", VIdf [0; 3; 0; 0]%Z)] "qid" = Some (VQid (Some "q1")) ∧
    od_get [("qid", VQid (Some "q1")); ("posdocid", VDocid "d1");
            ("query", VBag [1; 1; 0; 0]%Z); ("posdoc", VBag [0; 1; 2; 0]%Z);
            ("query_idf", VIdf [0; 3; 0; 0]%Z)] "posdocid" = Some (VDocid "d1") ∧
    od_get [("qid", VQid (Some "q1")); ("posdocid", VDocid "d1");
            ("query", VBag [1; 1; 0; 0]%Z); ("posdoc", VBag [0; 1; 2; 0]%Z);
            ("query_idf", VIdf [0; 3; 0; 0]%Z)] "query" = Some (VBag tq) ∧
    od_get [("qid", VQid (Some "q1")); ("posdocid", VDocid "d1");
            ("query", VBag [1; 1; 0; 0]%Z); ("posdoc", VBag [0; 1; 2; 0]%Z);
            ("query_idf", VIdf [0; 3; 0; 0]%Z)] "posdoc" = Some (VBag tp) ∧
    od_get [("qid", VQid (Some "q1")); ("posdocid", VDocid "d1");
            ("query", VBag [1; 1; 0; 0]%Z); ("posdoc", VBag [0; 1; 2; 0]%Z);
            ("query_idf", VIdf [0; 3; 0; 0]%Z)] "query_idf" = Some (VIdf v) ∧
    length v = size (stoi (Extractor := ex_extractor "unigram")) ∧
    ∀ i, (i < size (stoi (Extractor := ex_extractor "unigram")))%nat →
      v !! i = Some (from_option (idf (Extractor := ex_extractor "unigram")) 0%Z
                       (last (filter (λ tok, index_of (E := ex_extractor "unigram") tok = i)
                                query_toks))).
Proof.
  refine (id2vec_contents (E := ex_extractor "unigram") "d1" None (Some "q1") None
            [("qid", VQid (Some "q1")); ("posdocid", VDocid "d1");
             ("query", VBag [1; 1; 0; 0]%Z); ("posdoc", VBag [0; 1; 2; 0]%Z);
             ("query_idf", VIdf [0; 3; 0; 0]%Z)] _).
  vm_compute. reflexivity.
Defined.

Lemma id2vec_outcomes_witness :
  (∃ r, id2vec (E := ex_extractor "bigram") "d1" None (Some "q1") None = OK r) ∨
  (is_Some (Some "q1") ∧ is_Some (@None string) ∧
   id2vec (E := ex_extractor "bigram") "d1" None (Some "q1") None
   = Raise (RuntimeError "received both a qid and query, but only one can be passed")) ∨
  (@None string = None ∧
   Some "q1" ≫= (qid2toks (Extractor := ex_extractor "bigram") !!.) = None ∧
   id2vec (E := ex_extractor "bigram") "d1" None (Some "q1") None = Raise (KeyError "q1")) ∨
  (datamode (cfg (Extractor := ex_extractor "bigram")) ≠ "unigram" ∧
   datamode (cfg (Extractor := ex_extractor "bigram")) ≠ "trigram" ∧
   id2vec (E := ex_extractor "bigram") "d1" None (Some "q1") None
   = Raise (Exception "Unknown datamode")).
Proof.
  exact (id2vec_outcomes (E := ex_extractor "bigram") "d1" None (Some "q1") None
           (ex_stoi_wf _)).
Defined.

Lemma ex_vocab_wf : od_wf [("<pad>", 0%nat); ("dog", 1%nat); ("cat", 2%nat)].
Proof. unfold od_wf. apply (bool_decide_unpack _); vm_compute; exact I. Defined.

Lemma ex_vocab_values : NoDup (od_values [("<pad>", 0%nat); ("dog", 1%nat); ("cat", 2%nat)]).
Proof. apply (bool_decide_unpack _); vm_compute; exact I. Defined.

Lemma itos_inverts_stoi_witness :
  itos_of [("<pad>", 0%nat); ("dog", 1%nat); ("cat", 2%nat)]
  = [(0%nat, "<pad>"); (1%nat, "dog"); (2%nat, "cat")] ∧
  length (itos_of [("<pad>", 0%nat); ("dog", 1%nat); ("cat", 2%nat)]) = 3%nat ∧
  ∀ tok i, od_get (itos_of [("<pad>", 0%nat); ("dog", 1%nat); ("cat", 2%nat)]) i = Some tok
           ↔ od_get [("<pad>", 0%nat); ("dog", 1%nat); ("cat", 2%nat)] tok = Some i.
Proof.
  exact (itos_inverts_stoi [("<pad>", 0%nat); ("dog", 1%nat); ("cat", 2%nat)]
           ex_vocab_wf ex_vocab_values).
Defined.

End BagOfWordsFacts.

(** ** The vocabulary builder of the extractors *)

Module BuildStoIFacts.
Import BuildStoI PyFacts.

Section build_stoi_facts.
Context {F : Type}.
Implicit Types (s : odict string nat) (d : odict string F) (getidf : string → F).

Lemma od_values_app {K V} (d d' : odict K V) : od_values (d ++ d') = od_values d ++ od_values d'.
Proof. unfold od_values. apply fmap_app. Qed.

(** One token: the state after, as an append. *)
Lemma build_stoi_tok_spec getidf c s d tok :
  build_stoi_tok getidf c (s, d) tok
  = if bool_decide (tok ∈ od_keys s) then (s, d)
    else (s ++ [(tok, length s)], if c then od_set d tok (getidf tok) else d).
Proof.
  unfold build_stoi_tok. case_bool_decide as Hin.
  - apply od_get_is_Some in Hin as [i ->]. done.
  - rewrite od_get_notin by done. by rewrite od_set_notin.
Qed.

Lemma build_stoi_tok_numbered getidf c acc tok :
  numbered acc.1 → numbered (build_stoi_tok getidf c acc tok).1.
Proof.
  destruct acc as [s d]. rewrite build_stoi_tok_spec. case_bool_decide as Hin; [done|].
  cbn [fst]. intros [Hwf Hval]. split.
  - unfold od_wf. rewrite od_keys_app. apply NoDup_app. split_and!; [done| |apply NoDup_singleton].
    intros x Hx ->%list_elem_of_singleton. done.
  - rewrite od_values_app, Hval, length_app. cbn. by rewrite Nat.add_1_r, seq_S.
Qed.

Lemma build_stoi_tok_prefix getidf c acc tok :
  acc.1 `prefix_of` (build_stoi_tok getidf c acc tok).1 ∧
  tok ∈ od_keys (build_stoi_tok getidf c acc tok).1 ∧
  (∀ k, k ∈ od_keys (build_stoi_tok getidf c acc tok).1 → k ∈ od_keys acc.1 ∨ k = tok).
Proof.
  destruct acc as [s d]. rewrite build_stoi_tok_spec. case_bool_decide as Hin; cbn [fst].
  - split_and!; [done|done|by left].
  - split_and!.
    + by apply prefix_app_r.
    + rewrite od_keys_app. apply elem_of_app. right. left.
    + intros k. rewrite od_keys_app. intros [?|?%list_elem_of_singleton]%elem_of_app; auto.
Qed.

(** The two loops as one over the tokens in order. *)
Lemma build_stoi_flat getidf c (toks_list : list (list string)) : ∀ acc,
  foldl (foldl (build_stoi_tok getidf c)) acc toks_list
  = foldl (build_stoi_tok getidf c) acc (concat toks_list).
Proof.
  induction toks_list as [|toks rest IH]; intros acc; [done|].
  cbn [foldl concat]. by rewrite foldl_app, IH.
Qed.

Lemma build_stoi_toks_spec getidf c (toks : list string) : ∀ acc,
  let acc' := foldl (build_stoi_tok getidf c) acc toks in
  (numbered acc.1 → numbered acc'.1) ∧
  acc.1 `prefix_of` acc'.1 ∧
  (∀ tok, tok ∈ od_keys acc'.1 ↔ tok ∈ od_keys acc.1 ∨ tok ∈ toks) ∧
  (∀ tok, od_get acc'.2 tok
          = if bool_decide (c = true ∧ tok ∈ toks ∧ tok ∉ od_keys acc.1)
            then Some (getidf tok) else od_get acc.2 tok).
Proof.
  induction toks as [|t toks IH]; intros acc; cbn zeta.
  - cbn. split_and!; [done|done| |].
    + intros tok. split; [by left|]. intros [?|Hin]; [done|]. by apply elem_of_nil in Hin.
    + intros tok. rewrite bool_decide_false; [done|].
      intros (_ & Hin & _). by apply elem_of_nil in Hin.
  - cbn [foldl]. destruct (IH (build_stoi_tok getidf c acc t)) as (Hn & Hp & Hk & Hi).
    pose proof (build_stoi_tok_prefix getidf c acc t) as (Hp1 & Ht1 & Hk1).
    split_and!.
    + intros H. by apply Hn, build_stoi_tok_numbered.
    + by etrans.
    + intros tok. rewrite Hk, elem_of_cons. split.
      * intros [H|H]; [|by right; right].
        destruct (Hk1 _ H) as [?| ->]; [by left|by right; left].
      * intros [H|[->|H]]; [|by left|by right].
        left. destruct Hp1 as [k ->]. rewrite od_keys_app. apply elem_of_app. by left.
    + intros tok. rewrite Hi. clear IH Hn Hp Hk Hi Hp1 Ht1 Hk1.
      destruct acc as [s d]. rewrite build_stoi_tok_spec. cbn [fst snd].
      destruct (bool_decide (t ∈ od_keys s)) eqn:Hts; cbn [fst snd].
      * apply bool_decide_eq_true in Hts.
        apply (f_equal (λ b : bool, if b then Some (getidf tok) else od_get d tok)).
        apply bool_decide_ext. rewrite elem_of_cons.
        split; [intros (? & ? & ?); split_and!; auto|].
        intros (? & [->|?] & ?); [done|by split_and!].
      * apply bool_decide_eq_false in Hts. rewrite od_keys_app.
        change (od_keys [(t, length s)]) with [t].
        destruct (decide (tok = t)) as [->|Hne].
        -- rewrite bool_decide_false.
           2:{ intros (_ & _ & Hn). apply Hn, elem_of_app. right. left. }
           destruct c.
           ++ rewrite od_get_set, decide_True by done.
              rewrite bool_decide_true; [done|]. split_and!; [done|left|done].
           ++ rewrite bool_decide_false; [done|]. by intros (? & _).
        -- assert (od_get (if c then od_set d t (getidf t) else d) tok = od_get d tok) as ->.
           { destruct c; [|done]. by rewrite od_get_set, decide_False. }
           apply (f_equal (λ b : bool, if b then Some (getidf tok) else od_get d tok)).
           apply bool_decide_ext. rewrite elem_of_cons, elem_of_app, list_elem_of_singleton.
           split.
           ++ intros (? & ? & Hn). split_and!; [done|by right|]. intros ?. apply Hn. by left.
           ++ intros (? & [?|?] & Hn); [done|]. split_and!; [done..|].
              intros [?|?]; [by apply Hn|done].
Qed.

(** X25.  [build_stoi] (extractor/__init__.py, lines 52-55) keeps a
    vocabulary numbered in insertion order: the entries it had remain as a
    prefix with their indices, every token of [toks_list] is a term
    afterwards, no other term is added, and the indices are still
    0, 1, 2, ... in insertion order, each new term taking the size of the
    vocabulary at the time. *)
Theorem build_stoi_numbers_terms (self self' : Self F) toks_list keepstops calculate_idf s :
  stoi self = Some s → numbered s →
  build_stoi self toks_list keepstops calculate_idf = Passed self' →
  ∃ s', stoi self' = Some s' ∧ numbered s' ∧ s `prefix_of` s' ∧
        ∀ tok, tok ∈ od_keys s' ↔ tok ∈ od_keys s ∨ tok ∈ concat toks_list.
Proof.
  intros Hs Hnum. unfold build_stoi. rewrite Hs.
  destruct (index self) as [getidf|]; [|done].
  destruct (idf self) as [d|]; [|done]. rewrite build_stoi_flat.
  intros [= <-]. cbn.
  destruct (build_stoi_toks_spec getidf calculate_idf (concat toks_list) (s, d))
    as (Hn & Hp & Hk & _).
  eexists. split; [done|]. split_and!; [by apply Hn|done|done].
Qed.

(** X26.  The idf table after [build_stoi] (lines 57-59): an idf is
    stored, from the index, exactly for the tokens of [toks_list] that were
    not in the vocabulary before and only when [calculate_idf] is set; every
    other entry is as before, so the idf of a known term is never
    recomputed. *)
Theorem build_stoi_idf_of_new_terms (self self' : Self F)
    toks_list keepstops calculate_idf getidf s d :
  index self = Some getidf → stoi self = Some s → idf self = Some d →
  build_stoi self toks_list keepstops calculate_idf = Passed self' →
  ∃ d', idf self' = Some d' ∧ index self' = Some getidf ∧
    ∀ tok, od_get d' tok
           = if bool_decide (calculate_idf = true ∧ tok ∈ concat toks_list ∧ tok ∉ od_keys s)
             then Some (getidf tok) else od_get d tok.
Proof.
  intros Hi Hs Hd. unfold build_stoi. rewrite Hi, Hs, Hd, build_stoi_flat.
  intros [= <-]. cbn.
  destruct (build_stoi_toks_spec getidf calculate_idf (concat toks_list) (s, d))
    as (_ & _ & _ & Hidf).
  eexists. split_and!; done.
Qed.

Lemma build_stoi_toks_known getidf c (toks : list string) : ∀ acc,
  (∀ tok, tok ∈ toks → tok ∈ od_keys acc.1) →
  foldl (build_stoi_tok getidf c) acc toks = acc.
Proof.
  induction toks as [|t toks IH]; intros [s d] Hall; [done|].
  cbn [foldl]. rewrite build_stoi_tok_spec, bool_decide_true by (apply Hall; left).
  apply IH. intros tok ?. apply Hall. by right.
Qed.

(** X27.  [build_stoi] fails its assertions exactly when the index, the
    vocabulary or the idf table is [None], whatever the tokens.  Otherwise
    the result does not depend on [keepstops], and building again from the
    result with the same tokens changes nothing, for either value of
    [calculate_idf]. *)
Theorem build_stoi_outcome (self : Self F) toks_list keepstops calculate_idf :
  match build_stoi self toks_list keepstops calculate_idf with
  | AssertionError => index self = None ∨ stoi self = None ∨ idf self = None
  | Passed self' =>
      is_Some (index self) ∧ is_Some (stoi self) ∧ is_Some (idf self) ∧
      ∀ keepstops' calculate_idf',
        build_stoi self toks_list keepstops' calculate_idf = Passed self' ∧
        build_stoi self' toks_list keepstops' calculate_idf' = Passed self'
  end.
Proof.
  unfold build_stoi.
  destruct (index self) as [getidf|]; [|by left].
  destruct (stoi self) as [s|]; [|by right; left].
  destruct (idf self) as [d|]; [|by right; right].
  split_and!; [done..|]. intros _ c'. split; [done|]. cbn [index stoi idf].
  rewrite !build_stoi_flat.
  destruct (build_stoi_toks_spec getidf calculate_idf (concat toks_list) (s, d))
    as (_ & _ & Hk & _). cbn zeta in Hk.
  rewrite <- surjective_pairing.
  rewrite build_stoi_toks_known; [done|].
  intros tok Hin. apply Hk. by right.
Qed.

End build_stoi_facts.

(** *** The example vocabulary *)

Lemma ex_numbered : numbered [("<pad>", 0%nat)].
Proof. split; [apply NoDup_singleton|reflexivity]. Defined.

Lemma build_stoi_numbers_terms_witness :
  ∃ s', Some [("<pad>", 0%nat); ("dog", 1%nat); ("cat", 2%nat)] = Some s' ∧ numbered s' ∧
        [("<pad>", 0%nat)] `prefix_of` s' ∧
        ∀ tok, tok ∈ od_keys s' ↔
               tok ∈ od_keys [("<pad>", 0%nat)] ∨ tok ∈ concat [["dog"; "cat"]; ["dog"]].
Proof.
  exact (build_stoi_numbers_terms ex_self
           {| index := Some (λ _, 2%Z);
              stoi := Some [("<pad>", 0%nat); ("dog", 1%nat); ("cat", 2%nat)];
              idf := Some [("dog", 2%Z); ("cat", 2%Z)] |}
           [["dog"; "cat"]; ["dog"]] false true [("<pad>", 0%nat)]
           eq_refl ex_numbered eq_refl).
Defined.

Lemma build_stoi_idf_of_new_terms_witness :
  ∃ d', Some [("dog", 2%Z); ("cat", 2%Z)] = Some d' ∧ Some (λ _ : string, 2%Z) = Some (λ _, 2%Z) ∧
    ∀ tok, od_get d' tok
           = if bool_decide (true = true ∧ tok ∈ concat [["dog"; "cat"]; ["dog"]]
                             ∧ tok ∉ od_keys [("<pad>", 0%nat)])
             then Some 2%Z else od_get [] tok.
Proof.
  exact (build_stoi_idf_of_new_terms ex_self
           {| index := Some (λ _, 2%Z);
              stoi := Some [("<pad>", 0%nat); ("dog", 1%nat); ("cat", 2%nat)];
              idf := Some [("dog", 2%Z); ("cat", 2%Z)] |}
           [["dog"; "cat"]; ["dog"]] false true (λ _, 2%Z) [("<pad>", 0%nat)] []
           eq_refl eq_refl eq_refl eq_refl).
Defined.

End BuildStoIFacts.
